(** * Shallow embedding of [trajectory_analysis/trajectory_experiments.py]

    The forward passes of the trajectory-prediction networks (SCoNe and its
    order-K / Ebli / Bunch variants), the shift-operator builder and the
    conditional-incidence selector of [data_setup], and the regional split of
    [train_model].

    Arrays are dense 2-D arrays over the reals: a shape and an entry
    function.  Every array built by an operation is canonical: its entries
    outside the shape are 0, so two arrays built the same way are equal as
    records.  The forward passes run in a small exception monad that also
    logs every matrix product performed. *)

From Stdlib Require Import Ascii String Reals Lra Lia ZArith Bool List.
From Stdlib Require Import FunctionalExtensionality.
From Stdlib Require Import Sorting.Mergesort Sorting.Permutation Sorting.Sorted.
Import ListNotations.

Open Scope R_scope.

(** ** Arrays *)

Record mat := Mat { rows : nat; cols : nat; ent : nat -> nat -> R }.

(** An array of shape [r x c] with entries [g]; zero outside the shape. *)
Definition mk (r c : nat) (g : nat -> nat -> R) : mat :=
  Mat r c (fun i j => if (Nat.ltb i r && Nat.ltb j c)%bool then g i j else 0).

Fixpoint sum (n : nat) (g : nat -> R) : R :=
  match n with
  | O => 0
  | S k => sum k g + g k
  end.

(** [A @ B]: the product sums over the columns of [A]. *)
Definition mm (A B : mat) : mat :=
  mk (rows A) (cols B) (fun i j => sum (cols A) (fun k => ent A i k * ent B k j)).

(** [A.T] *)
Definition transpose (A : mat) : mat :=
  mk (cols A) (rows A) (fun i j => ent A j i).

(** Element-wise application of a scalar function ([np.tanh], ...). *)
Definition map_elem (h : R -> R) (A : mat) : mat :=
  mk (rows A) (cols A) (fun i j => h (ent A i j)).

(** [np.zeros((r, c))] *)
Definition zeros (r c : nat) : mat := mk r c (fun _ _ => 0).

(** [np.diag(flips)] *)
Definition diag (flips : list R) : mat :=
  mk (length flips) (length flips)
     (fun i j => if Nat.eqb i j then nth i flips 0 else 0).

(** [A + B] between arrays of the same shape (as in [L1_lower + L1_upper]). *)
Definition madd (A B : mat) : mat :=
  mk (rows A) (cols A) (fun i j => ent A i j + ent B i j).

(** Broadcasting of one dimension (numpy rules for 2-D arrays). *)
Definition bdim (a b : nat) : option nat :=
  if Nat.eqb a b then Some a
  else if Nat.eqb a 1 then Some b
  else if Nat.eqb b 1 then Some a
  else None.

Definition bidx (d i : nat) : nat := if Nat.eqb d 1 then 0%nat else i.

Definition badd (r c : nat) (A B : mat) : mat :=
  mk r c (fun i j => ent A (bidx (rows A) i) (bidx (cols A) j)
                     + ent B (bidx (rows B) i) (bidx (cols B) j)).

(** [np.append(B1, np.zeros((1, B1.shape[1])), axis=0)] *)
Definition append_zero_row (B : mat) : mat :=
  mk (S (rows B)) (cols B) (fun i j => if Nat.ltb i (rows B) then ent B i j else 0).

(** Activation functions. *)
Definition relu (x : mat) : mat := map_elem (fun v => Rmax v 0) x.
Definition tanh_m (x : mat) : mat := map_elem tanh x.
Definition sigmoid (x : mat) : mat := map_elem (fun v => 1 / (1 + exp (- v))) x.
(** [np.where(x >= 0, x, 0.01 * x)] *)
Definition leaky_relu (x : mat) : mat :=
  map_elem (fun v => if Rle_dec 0 v then v else (1 / 100) * v) x.

(** [logsumexp(logits)] over all entries, and [logits - logsumexp(logits)]. *)
Definition logsumexp (A : mat) : R :=
  ln (sum (rows A) (fun i => sum (cols A) (fun j => exp (ent A i j)))).

Definition log_softmax (logits : mat) : mat :=
  map_elem (fun v => v - logsumexp logits) logits.

(** A [1 x 1] array. *)
Definition scalar_mat (x : R) : mat := mk 1 1 (fun _ _ => x).

(** ** Integer indexing with Python/JAX conventions *)

(** A negative index counts from the end. *)
Definition py_norm (n : nat) (i : Z) : Z :=
  if (i <? 0)%Z then (i + Z.of_nat n)%Z else i.

(** Indexing a JAX array out of bounds clamps the index into range. *)
Definition jax_clamp (n : nat) (i : Z) : nat :=
  let j := py_norm n i in
  if (j <? 0)%Z then 0%nat
  else if (j <? Z.of_nat n)%Z then Z.to_nat j
  else Nat.pred n.

(** [A[idx]] for a JAX array [A] and an integer index array [idx]. *)
Definition gather_rows (A : mat) (idx : list Z) : mat :=
  mk (length idx) (cols A)
     (fun i j => ent A (jax_clamp (rows A) (nth i idx 0%Z)) j).

(** ** Exceptions and the forward-pass monad *)

Inductive exn := AssertionError | IndexError | ValueError | TypeError | IOError | Exception.

Inductive event := Ev_matmul.

Inductive res (A : Type) : Type :=
| Ok (a : A)
| Err (e : exn).
Arguments Ok {A} a.
Arguments Err {A} e.

(** A computation returns the list of matrix products it performed together
    with a value or an exception. *)
Definition M (A : Type) : Type := (list event * res A)%type.

Definition ret {A} (a : A) : M A := ([], Ok a).
Definition raise {A} (e : exn) : M A := ([], Err e).

Definition bind {A B} (m : M A) (k : A -> M B) : M B :=
  match m with
  | (l, Ok a) => match k a with (l', r) => (l ++ l', r) end
  | (l, Err e) => (l, Err e)
  end.

Notation "x <- m ;; k" := (bind m (fun x => k))
  (at level 61, m at next level, right associativity).

Definition assert (b : bool) : M unit := if b then ret tt else raise AssertionError.

(** [weights[i]] on a Python list. *)
Definition py_index {A} (l : list A) (i : Z) : M A :=
  let j := py_norm (length l) i in
  if ((0 <=? j)%Z && (j <? Z.of_nat (length l))%Z)%bool then
    match nth_error l (Z.to_nat j) with
    | Some a => ret a
    | None => raise IndexError
    end
  else raise IndexError.

(** [A @ B]: a shape mismatch raises. *)
Definition matmul (A B : mat) : M mat :=
  if Nat.eqb (cols A) (rows B) then ([Ev_matmul], Ok (mm A B))
  else raise ValueError.

(** [A + B] with broadcasting. *)
Definition add (A B : mat) : M mat :=
  match bdim (rows A) (rows B), bdim (cols A) (cols B) with
  | Some r, Some c => ret (badd r c A B)
  | _, _ => raise ValueError
  end.

(** [for i in range(n): x = body(i, x)] *)
Fixpoint for_range_from {A} (i n : nat) (body : nat -> A -> M A) (x : A) : M A :=
  match n with
  | O => ret x
  | S n' => bind (body i x) (for_range_from (S i) n' body)
  end.

Definition for_range {A} (n : nat) (body : nat -> A -> M A) (x : A) : M A :=
  for_range_from 0 n body x.

(** [n_layers = (len(weights) - 1) / g; assert n_layers % 1 == 0]: the
    float quotient is integral exactly when [g] divides the numerator. *)
Definition layers_ok (num g : Z) : bool := Z.eqb (num mod g) 0.
Definition n_layers_of (num g : Z) : nat := Z.to_nat (num / g).

(** [cur_out @ weights[k]] *)
Definition own_term (weights : list mat) (x : mat) (k : Z) : M mat :=
  w <- py_index weights k ;; matmul x w.

(** [S @ cur_out @ weights[k]] *)
Definition shift_term (weights : list mat) (S x : mat) (k : Z) : M mat :=
  a <- matmul S x ;; w <- py_index weights k ;; matmul a w.

(** [Bcond_func(last_node) @ cur_out @ weights[-1]], then the log-softmax. *)
Definition readout (weights : list mat) (Bc cur_out : mat) : M mat :=
  b <- matmul Bc cur_out ;;
  w <- py_index weights (-1) ;;
  logits <- matmul b w ;;
  ret (log_softmax logits).

(** ** [scone_func] *)

Definition scone_layer (weights : list mat) (S_lower S_upper : mat)
    (i : nat) (cur_out : mat) : M mat :=
  let i := Z.of_nat i in
  t0 <- own_term weights cur_out (i * 3) ;;
  t1 <- shift_term weights S_lower cur_out (i * 3 + 1) ;;
  s1 <- add t0 t1 ;;
  t2 <- shift_term weights S_upper cur_out (i * 3 + 2) ;;
  s2 <- add s1 t2 ;;
  ret (tanh_m s2).

Definition scone_func (weights : list mat) (S_lower S_upper : mat)
    (Bcond_func : Z -> mat) (last_node : Z) (flow : mat) : M mat :=
  let num := (Z.of_nat (length weights) - 1)%Z in
  _ <- assert (layers_ok num 3) ;;
  cur_out <- for_range (n_layers_of num 3) (scone_layer weights S_lower S_upper) flow ;;
  readout weights (Bcond_func last_node) cur_out.

(** ** The order-K families [scnn_func_2], [scnn_func_3], [scnn_func_4] *)

(** Defaults captured from [HYPERPARAMS] when the functions are defined. *)
Definition HYPERPARAMS_k1_scnn : nat := 2.
Definition HYPERPARAMS_k2_scnn : nat := 2.

Definition scnn_layer_2 (weights : list mat) (n_k : Z)
    (S_lower S2_lower S_upper S2_upper : mat) (i : nat) (cur_out : mat) : M mat :=
  let i := Z.of_nat i in
  t0 <- own_term weights cur_out (i * n_k) ;;
  t1 <- shift_term weights S_lower cur_out (i * n_k + 1) ;; s <- add t0 t1 ;;
  t2 <- shift_term weights S2_lower cur_out (i * n_k + 2) ;; s <- add s t2 ;;
  t3 <- shift_term weights S_upper cur_out (i * n_k + 3) ;; s <- add s t3 ;;
  t4 <- shift_term weights S2_upper cur_out (i * n_k + 4) ;; s <- add s t4 ;;
  ret (tanh_m s).

Definition scnn_func_2 (weights : list mat) (S_lower S2_lower S_upper S2_upper : mat)
    (Bcond_func : Z -> mat) (last_node : Z) (flow : mat) (k1 k2 : nat) : M mat :=
  let num := (Z.of_nat (length weights) - 1)%Z in
  let n_k := Z.of_nat (1 + k1 + k2) in
  _ <- assert (layers_ok num n_k) ;;
  cur_out <- for_range (n_layers_of num n_k)
               (scnn_layer_2 weights n_k S_lower S2_lower S_upper S2_upper) flow ;;
  readout weights (Bcond_func last_node) cur_out.

Definition scnn_layer_3 (weights : list mat) (n_k : Z)
    (S_lower S2_lower S3_lower S_upper S2_upper S3_upper : mat)
    (i : nat) (cur_out : mat) : M mat :=
  let i := Z.of_nat i in
  t0 <- own_term weights cur_out (i * n_k) ;;
  t1 <- shift_term weights S_lower cur_out (i * n_k + 1) ;; s <- add t0 t1 ;;
  t2 <- shift_term weights S2_lower cur_out (i * n_k + 2) ;; s <- add s t2 ;;
  t3 <- shift_term weights S3_lower cur_out (i * n_k + 3) ;; s <- add s t3 ;;
  t4 <- shift_term weights S_upper cur_out (i * n_k + 4) ;; s <- add s t4 ;;
  t5 <- shift_term weights S2_upper cur_out (i * n_k + 5) ;; s <- add s t5 ;;
  t6 <- shift_term weights S3_upper cur_out (i * n_k + 6) ;; s <- add s t6 ;;
  ret (tanh_m s).

Definition scnn_func_3 (weights : list mat)
    (S_lower S2_lower S3_lower S_upper S2_upper S3_upper : mat)
    (Bcond_func : Z -> mat) (last_node : Z) (flow : mat) (k1 k2 : nat) : M mat :=
  let num := (Z.of_nat (length weights) - 1)%Z in
  let n_k := Z.of_nat (1 + k1 + k2) in
  _ <- assert (layers_ok num n_k) ;;
  cur_out <- for_range (n_layers_of num n_k)
               (scnn_layer_3 weights n_k S_lower S2_lower S3_lower
                             S_upper S2_upper S3_upper) flow ;;
  readout weights (Bcond_func last_node) cur_out.

(** As in the source, the term with weight [i*n_k + 4] uses [S4_upper]. *)
Definition scnn_layer_4 (weights : list mat) (n_k : Z)
    (S_lower S2_lower S3_lower S4_lower S_upper S2_upper S3_upper S4_upper : mat)
    (i : nat) (cur_out : mat) : M mat :=
  let i := Z.of_nat i in
  t0 <- own_term weights cur_out (i * n_k) ;;
  t1 <- shift_term weights S_lower cur_out (i * n_k + 1) ;; s <- add t0 t1 ;;
  t2 <- shift_term weights S2_lower cur_out (i * n_k + 2) ;; s <- add s t2 ;;
  t3 <- shift_term weights S3_lower cur_out (i * n_k + 3) ;; s <- add s t3 ;;
  t4 <- shift_term weights S4_upper cur_out (i * n_k + 4) ;; s <- add s t4 ;;
  t5 <- shift_term weights S_upper cur_out (i * n_k + 5) ;; s <- add s t5 ;;
  t6 <- shift_term weights S2_upper cur_out (i * n_k + 6) ;; s <- add s t6 ;;
  t7 <- shift_term weights S3_upper cur_out (i * n_k + 7) ;; s <- add s t7 ;;
  t8 <- shift_term weights S4_upper cur_out (i * n_k + 8) ;; s <- add s t8 ;;
  ret (tanh_m s).

Definition scnn_func_4 (weights : list mat)
    (S_lower S2_lower S3_lower S4_lower S_upper S2_upper S3_upper S4_upper : mat)
    (Bcond_func : Z -> mat) (last_node : Z) (flow : mat) (k1 k2 : nat) : M mat :=
  let num := (Z.of_nat (length weights) - 1)%Z in
  let n_k := Z.of_nat (1 + k1 + k2) in
  _ <- assert (layers_ok num n_k) ;;
  cur_out <- for_range (n_layers_of num n_k)
               (scnn_layer_4 weights n_k S_lower S2_lower S3_lower S4_lower
                             S_upper S2_upper S3_upper S4_upper) flow ;;
  readout weights (Bcond_func last_node) cur_out.

(** ** [ebli_func] *)

Definition ebli_layer (weights : list mat) (S S2 S3 : mat) (i : nat) (cur_out : mat)
    : M mat :=
  let i := Z.of_nat i in
  t0 <- own_term weights cur_out (i * 4) ;;
  t1 <- shift_term weights S cur_out (i * 4 + 1) ;; s <- add t0 t1 ;;
  t2 <- shift_term weights S2 cur_out (i * 4 + 2) ;; s <- add s t2 ;;
  t3 <- shift_term weights S3 cur_out (i * 4 + 3) ;; s <- add s t3 ;;
  ret (tanh_m s).

Definition ebli_func (weights : list mat) (S S2 S3 : mat)
    (Bcond_func : Z -> mat) (last_node : Z) (flow : mat) : M mat :=
  let num := (Z.of_nat (length weights) - 1)%Z in
  _ <- assert (layers_ok num 4) ;;
  cur_out <- for_range (n_layers_of num 4) (ebli_layer weights S S2 S3) flow ;;
  readout weights (Bcond_func last_node) cur_out.

(** ** [bunch_func] *)

(** [nbrhoods[n]] on the JAX array of padded neighbour lists. *)
Definition jax_row (nbrhoods : list (list Z)) (n : Z) : list Z :=
  nth (jax_clamp (length nbrhoods) n) nbrhoods [].

Definition bunch_layer (weights : list mat) (S_00 S_10 S_01 S_11 S_21 S_12 S_22 : mat)
    (i : nat) (cur_out : mat * mat * mat) : M (mat * mat * mat) :=
  let i := Z.of_nat i in
  let '(c0, c1, c2) := cur_out in
  a <- shift_term weights S_00 c0 (i * 7) ;;
  b <- shift_term weights S_10 c1 (i * 7 + 1) ;;
  n0 <- add a b ;;
  a <- shift_term weights S_01 c0 (i * 7 + 2) ;;
  b <- shift_term weights S_11 c1 (i * 7 + 3) ;; s <- add a b ;;
  c <- shift_term weights S_21 c2 (i * 7 + 4) ;; n1 <- add s c ;;
  a <- shift_term weights S_12 c1 (i * 7 + 5) ;;
  b <- shift_term weights S_22 c2 (i * 7 + 6) ;;
  n2 <- add a b ;;
  ret (relu n0, relu n1, relu n2).

Definition bunch_func (weights : list mat) (S_00 S_10 S_01 S_11 S_21 S_12 S_22 : mat)
    (nbrhoods : list (list Z)) (last_node : Z) (flow : mat) : M mat :=
  let num := Z.of_nat (length weights) in
  _ <- assert (layers_ok num 7) ;;
  cur_out <- for_range (n_layers_of num 7)
               (bunch_layer weights S_00 S_10 S_01 S_11 S_21 S_12 S_22)
               (zeros (cols S_00) 1, flow, zeros (cols S_22) 1) ;;
  let '(nodes_out, _, _) := cur_out in
  let logits := gather_rows nodes_out (jax_row nbrhoods last_node) in
  ret (log_softmax logits).

(** ** [data_setup]: the conditional-incidence selector *)

(** [Bconds_func(n) = B1_jax[nbrhoods[n]]] *)
Definition Bconds_func (nbrhoods : list (list Z)) (B1_jax : mat) (n : Z) : mat :=
  gather_rows B1_jax (jax_row nbrhoods n).

(** ** [data_setup]: the path-prefix cache *)

(** [[f(x) for x in xs]] inside the monad. *)
Fixpoint map_m {A B} (f : A -> M B) (l : list A) : M (list B) :=
  match l with
  | [] => ret []
  | x :: t => y <- f x ;; ys <- map_m f t ;; ret (y :: ys)
  end.

Section Prefixes.

Context {Path Edges : Type}.

(** Modelled from the spec: [flow_to_path] (in [synthetic_data_gen], not
    among the sources) recomputes the node path of a flow from the edge list
    [E] and the last node; it is taken as a total function. *)
Variable flow_to_path : mat -> Edges -> Z -> Path.

(** [try: prefixes = list(np.load(...)) except: prefixes = [flow_to_path(
    inputs_all[0][-1][i], E, last_nodes[i]) for i in range(len(last_nodes))]].
    [loaded] is the outcome of [np.load]. *)
Definition load_prefixes (loaded : res (list Path)) (flows : list mat) (E : Edges)
    (last_nodes : list Z) : M (list Path) :=
  match loaded with
  | Ok prefixes => ret prefixes
  | Err _ =>
      map_m (fun i =>
               f <- py_index flows (Z.of_nat i) ;;
               n <- py_index last_nodes (Z.of_nat i) ;;
               ret (flow_to_path f E n))
            (seq 0 (length last_nodes))
  end.

End Prefixes.

(** ** [train_model]: the regional split *)

(** [train_mask = [1 if i % 3 == 1 else 0 for i in range(n)]] and
    [test_mask = [1 if i % 3 == 2 else 0 for i in range(n)]]. *)
Definition regional_train_mask (n : nat) : list Z :=
  map (fun i => if Nat.eqb (i mod 3) 1 then 1%Z else 0%Z) (seq 0 n).
Definition regional_test_mask (n : nat) : list Z :=
  map (fun i => if Nat.eqb (i mod 3) 2 then 1%Z else 0%Z) (seq 0 n).

(** ** The order-4 layer as the spec describes it

    Each of the eight operators with its own weight; in particular [S4_lower]
    with weight [i*n_k + 4].  Compared with [scnn_layer_4] below. *)

Definition scnn_layer_4_intended (weights : list mat) (n_k : Z)
    (S_lower S2_lower S3_lower S4_lower S_upper S2_upper S3_upper S4_upper : mat)
    (i : nat) (cur_out : mat) : M mat :=
  let i := Z.of_nat i in
  t0 <- own_term weights cur_out (i * n_k) ;;
  t1 <- shift_term weights S_lower cur_out (i * n_k + 1) ;; s <- add t0 t1 ;;
  t2 <- shift_term weights S2_lower cur_out (i * n_k + 2) ;; s <- add s t2 ;;
  t3 <- shift_term weights S3_lower cur_out (i * n_k + 3) ;; s <- add s t3 ;;
  t4 <- shift_term weights S4_lower cur_out (i * n_k + 4) ;; s <- add s t4 ;;
  t5 <- shift_term weights S_upper cur_out (i * n_k + 5) ;; s <- add s t5 ;;
  t6 <- shift_term weights S2_upper cur_out (i * n_k + 6) ;; s <- add s t6 ;;
  t7 <- shift_term weights S3_upper cur_out (i * n_k + 7) ;; s <- add s t7 ;;
  t8 <- shift_term weights S4_upper cur_out (i * n_k + 8) ;; s <- add s t8 ;;
  ret (tanh_m s).

Definition scnn_func_4_intended (weights : list mat)
    (S_lower S2_lower S3_lower S4_lower S_upper S2_upper S3_upper S4_upper : mat)
    (Bcond_func : Z -> mat) (last_node : Z) (flow : mat) (k1 k2 : nat) : M mat :=
  let num := (Z.of_nat (length weights) - 1)%Z in
  let n_k := Z.of_nat (1 + k1 + k2) in
  _ <- assert (layers_ok num n_k) ;;
  cur_out <- for_range (n_layers_of num n_k)
               (scnn_layer_4_intended weights n_k S_lower S2_lower S3_lower S4_lower
                                      S_upper S2_upper S3_upper S4_upper) flow ;;
  readout weights (Bcond_func last_node) cur_out.

(** A [2 x 1] selector: one real neighbour slot and one padding slot. *)
Definition two_slot_selector : mat := mk 2 1 (fun i _ => if Nat.eqb i 0 then 1 else 0).

(** Ten [1 x 1] weights, all zero except [weights[4]] and [weights[9]]. *)
Definition order4_weights : list mat :=
  map (fun k => scalar_mat (if (Nat.eqb k 4 || Nat.eqb k 9)%bool then 1 else 0)) (seq 0 10).

(** ** Orientation flips

    [data_setup] with [flip_edges] conjugates the operators with
    [F = np.diag(flips)], multiplies the flows by [F] and the augmented
    boundary matrix by [F].  [flip_rows flips X] is [F @ X] written out. *)

Definition flip_rows (flips : list R) (X : mat) : mat :=
  mk (rows X) (cols X) (fun i j => nth i flips 0 * ent X i j).

(** Apply a function to the value of a computation. *)
Definition mmap {A B} (g : A -> B) (m : M A) : M B :=
  match m with
  | (l, Ok a) => (l, Ok (g a))
  | (l, Err e) => (l, Err e)
  end.

(** An array equal to its own canonical form (every array an operation builds). *)
Definition canon (A : mat) : Prop := mk (rows A) (cols A) (ent A) = A.

(** ** [data_setup]: neighbourhoods and the bias-augmented incidence matrix *)

(** The undirected graph [G_undir] on the nodes [0 .. length adj - 1]:
    [nth n adj []] lists the neighbours of node [n]. *)
Definition max_degree (adj : list (list nat)) : nat :=
  fold_right Nat.max 0%nat (map (@length nat) adj).

(** [nbrhoods = np.array([list(sorted(G_undir[n])) + [-1] * (max_degree -
    len(G_undir[n])) for n in range(max(G_undir.nodes) + 1)])] *)
Definition padded_nbrs (adj : list (list nat)) (n : nat) : list Z :=
  map Z.of_nat (NatSort.sort (nth n adj [])) ++
  repeat (-1)%Z (max_degree adj - length (nth n adj [])).

Definition nbrhoods_of (adj : list (list nat)) : list (list Z) :=
  map (padded_nbrs adj) (seq 0 (length adj)).

(** [B1_jax = np.append(B1, np.zeros((1, B1.shape[1])), axis=0)], followed
    by [B1_jax = B1_jax @ F] when [flip_edges] is set. *)
Definition B1_jax_of (flip_edges : bool) (flips : list R) (B1 : mat) : mat :=
  if flip_edges then mm (append_zero_row B1) (diag flips) else append_zero_row B1.

(** ** [data_setup]: the orientation flips

    [onp.random.seed(1)] followed by [onp.random.choice([1, -1],
    size=len(G_undir.edges), replace=True, p=[0.8, 0.2])]: numpy's legacy
    [RandomState] is a Mersenne Twister (MT19937) seeded by [mt19937_seed];
    [random_sample] builds each double from two 32-bit outputs, and [choice]
    returns [a[cdf.searchsorted(u, side='right')]] with [cdf = [0.8, 1.0]].
    [load_dataset], called between the two, reads files and draws no random
    numbers. *)

Definition mt_N : nat := 624.
Definition mt_M : nat := 397.

Definition w32 (x : Z) : Z := Z.land x 4294967295.

(** [key[0] = seed], [key[pos+1] = 1812433253 * (key[pos] ^ (key[pos] >> 30)) + pos + 1]. *)
Fixpoint mt_seed_from (n : nat) (i s : Z) : list Z :=
  match n with
  | O => []
  | S n' => s :: mt_seed_from n' (i + 1) (w32 (1812433253 * Z.lxor s (Z.shiftr s 30) + i))
  end.

(** The state after [mt19937_seed(state, seed)]: the key and [pos = 624]. *)
Definition mt19937_seed (seed : Z) : list Z * nat := (mt_seed_from mt_N 1 (w32 seed), mt_N).

(** [y = (key[i] & UPPER_MASK) | (key[i+1] & LOWER_MASK)];
    [key[i] = key[i+M] ^ (y >> 1) ^ (-(y & 1) & MATRIX_A)] *)
Definition mt_mix (a b c : Z) : Z :=
  let y := Z.lor (Z.land a 2147483648) (Z.land b 2147483647) in
  Z.lxor (Z.lxor c (Z.shiftr y 1)) (if Z.odd y then 2567483615 else 0).

Fixpoint set_nth (l : list Z) (i : nat) (v : Z) : list Z :=
  match l, i with
  | [], _ => []
  | _ :: t, O => v :: t
  | x :: t, S i' => x :: set_nth t i' v
  end.

(** [mt19937_gen]: the in-place regeneration of the key, index by index
    (indices taken modulo [N], as the three loops of the C code do). *)
Fixpoint mt_twist_from (k i : nat) (key : list Z) : list Z :=
  match k with
  | O => key
  | S k' =>
    mt_twist_from k' (S i)
      (set_nth key i (mt_mix (nth i key 0%Z) (nth ((i + 1) mod mt_N) key 0%Z)
                             (nth ((i + mt_M) mod mt_N) key 0%Z)))
  end.

Definition mt19937_gen (key : list Z) : list Z := mt_twist_from mt_N 0 key.

(** [mt19937_next]: regenerate when [pos == 624], then temper [key[pos++]]. *)
Definition mt19937_next (st : list Z * nat) : Z * (list Z * nat) :=
  let '(key, pos) := st in
  let '(key, pos) := if Nat.eqb pos mt_N then (mt19937_gen key, 0%nat) else (key, pos) in
  let y := nth pos key 0%Z in
  let y := Z.lxor y (Z.shiftr y 11) in
  let y := Z.lxor y (Z.land (Z.shiftl y 7) 2636928640) in
  let y := Z.lxor y (Z.land (Z.shiftl y 15) 4022730752) in
  let y := Z.lxor y (Z.shiftr y 18) in
  (y, (key, S pos)).

(** [mt19937_next_double] returns [(a * 67108864.0 + b) / 9007199254740992.0]
    with [a = next >> 5], [b = next >> 6]; this is its numerator. *)
Definition next_double53 (st : list Z * nat) : Z * (list Z * nat) :=
  let '(a, st) := mt19937_next st in
  let '(b, st) := mt19937_next st in
  ((Z.shiftr a 5 * 67108864 + Z.shiftr b 6)%Z, st).

(** [random_sample(size)], as numerators over [2^53]. *)
Fixpoint random_sample53 (n : nat) (st : list Z * nat) : list Z :=
  match n with
  | O => []
  | S n' => let '(k, st') := next_double53 st in k :: random_sample53 n' st'
  end.

(** [cdf.searchsorted(u, side='right') == 0] with [cdf[0] = 0.8] (the double
    [7205759403792794 / 2^53]): the sample picks [1], otherwise [-1]. *)
Definition choice_picks_first (k : Z) : bool := (k <? 7205759403792794)%Z.

Definition seed1_signs (n : nat) : list bool :=
  map choice_picks_first (random_sample53 n (mt19937_seed 1)).

(** [flips] for a graph of [n] edges. *)
Definition seed1_flips (n : nat) : list R :=
  map (fun b : bool => if b then 1 else -1) (seed1_signs n).

(** ** [data_setup]: the shift operators *)

(** Shape-checked [A @ B] and [A + B] in the result type; a mismatch raises
    [e] ([ValueError] for numpy arrays, [TypeError] once a JAX array is
    involved). *)
Definition res_bind {A B} (r : res A) (k : A -> res B) : res B :=
  match r with Ok a => k a | Err e => Err e end.

Notation "x <-? m ;; k" := (res_bind m (fun x => k)) (at level 61, m at next level, right associativity).

Definition mm_chk (e : exn) (A B : mat) : res mat :=
  if Nat.eqb (cols A) (rows B) then Ok (mm A B) else Err e.

Definition add_chk (e : exn) (A B : mat) : res mat :=
  match bdim (rows A) (rows B), bdim (cols A) (cols B) with
  | Some r, Some c => Ok (badd r c A B)
  | _, _ => Err e
  end.

(** [L1_lower = B1.T @ B1] and [L1_upper = B2 @ B2.T] (numpy products whose
    inner dimensions always agree), replaced by [F @ L1_lower @ F] and
    [F @ L1_upper @ F] when [HYPERPARAMS['flip_edges']] is set, with the JAX
    array [F = np.diag(flips)] over the [n_edges = len(G_undir.edges)]
    seed-1 flips. *)
Definition base_shifts (flip_edges : bool) (n_edges : nat) (B1 B2 : mat) : res (mat * mat) :=
  let L1_lower := mm (transpose B1) B1 in
  let L1_upper := mm B2 (transpose B2) in
  if flip_edges then
    let F := diag (seed1_flips n_edges) in
    lo <-? mm_chk TypeError F L1_lower ;;
    lo <-? mm_chk TypeError lo F ;;
    up <-? mm_chk TypeError F L1_upper ;;
    up <-? mm_chk TypeError up F ;;
    Ok (lo, up)
  else Ok (L1_lower, L1_upper).

(** The [shifts] list chosen by [HYPERPARAMS['model']].  The bunch model's
    [compute_shift_matrices] comes from [bunch_model_matrices], a module
    outside these sources; it is taken as an argument.  Powers of a square
    operator never mismatch; [L1_lower + L1_upper] raises [TypeError] (JAX)
    or [ValueError] (numpy) when the shapes do not broadcast. *)
Definition data_setup_shifts (model : string) (flip_edges : bool) (n_edges : nat)
    (compute_shift_matrices : mat -> mat -> list mat) (B1 B2 : mat) : res (list mat) :=
  Ls <-? base_shifts flip_edges n_edges B1 B2 ;;
  let '(L1_lower, L1_upper) := Ls in
  if String.eqb model "scone" then Ok [L1_lower; L1_upper]
  else if String.eqb model "scnn2" then
    Ok [L1_lower; mm L1_lower L1_lower; L1_upper; mm L1_upper L1_upper]
  else if String.eqb model "scnn3" then
    Ok [L1_lower; mm L1_lower L1_lower; mm (mm L1_lower L1_lower) L1_lower;
        L1_upper; mm L1_upper L1_upper; mm (mm L1_upper L1_upper) L1_upper]
  else if String.eqb model "scnn4" then
    Ok [L1_lower; mm L1_lower L1_lower; mm (mm L1_lower L1_lower) L1_lower;
        mm (mm (mm L1_lower L1_lower) L1_lower) L1_lower;
        L1_upper; mm L1_upper L1_upper; mm (mm L1_upper L1_upper) L1_upper;
        mm (mm (mm L1_upper L1_upper) L1_upper) L1_upper]
  else if String.eqb model "ebli" then
    L1 <-? add_chk (if flip_edges then TypeError else ValueError) L1_lower L1_upper ;;
    Ok [L1; mm L1 L1; mm (mm L1 L1) L1]
  else if String.eqb model "bunch" then Ok (compute_shift_matrices B1 B2)
  else Err Exception.

(** The incidence matrix of the path [0 - 1 - ... - n], edge [j] oriented
    from node [j] to node [j + 1]. *)
Definition path_B1 (n : nat) : mat :=
  mk (S n) n (fun i j => if Nat.eqb i j then -1 else if Nat.eqb i (S j) then 1 else 0).

(** ** [data_setup]: the edge list [E] and its inverse [E_lookup] *)

(** [onp.nonzero(B1.T)[1]]: edge by edge (row by row of [B1.T]), the nodes
    of the nonzero entries, in increasing order. *)
Definition nonzero_T_cols (B1 : mat) : list nat :=
  flat_map (fun j => filter (fun i => if Req_EM_T (ent B1 i j) 0 then false else true)
                            (seq 0 (rows B1)))
           (seq 0 (cols B1)).

Fixpoint take_sections {A} (sizes : list nat) (l : list A) : list (list A) :=
  match sizes with
  | [] => []
  | s :: t => firstn s l :: take_sections t (skipn s l)
  end.

(** [onp.array_split(ary, N)]: [N] sections, the first [len % N] of them
    one longer; [N <= 0] raises [ValueError]. *)
Definition array_split {A} (l : list A) (N : nat) : M (list (list A)) :=
  if Nat.eqb N 0 then raise ValueError
  else
    let q := (length l / N)%nat in
    let r := (length l mod N)%nat in
    ret (take_sections (repeat (S q) r ++ repeat q (N - r)%nat) l).

(** A dict keyed by tuples of node indices. *)
Definition tdict := list (list nat * nat).

Fixpoint tdict_set (k : list nat) (v : nat) (d : tdict) : tdict :=
  match d with
  | [] => [(k, v)]
  | (k', v') :: t =>
      if list_eq_dec Nat.eq_dec k k' then (k, v) :: t else (k', v') :: tdict_set k v t
  end.

Fixpoint tdict_get (k : list nat) (d : tdict) : option nat :=
  match d with
  | [] => None
  | (k', v) :: t => if list_eq_dec Nat.eq_dec k k' then Some v else tdict_get k t
  end.

(** [for i, e in enumerate(edges): E.append(tuple(e)); E_lookup[tuple(e)] = i] *)
Definition E_lookup_of (edges : list (list nat)) : tdict :=
  fold_left (fun d ie => tdict_set (snd ie) (fst ie) d)
            (combine (seq 0 (length edges)) edges) [].

(** [e = onp.nonzero(B1.T)[1]; edges = onp.array_split(e, len(e)/2)], then
    [E] and [E_lookup]. *)
Definition data_setup_edges (B1 : mat) : M (list (list nat) * tdict) :=
  let e := nonzero_T_cols B1 in
  edges <- array_split e (length e / 2)%nat ;;
  ret (edges, E_lookup_of edges).

(** ** [hyperparams]: the command-line parser *)

(** Values of the [hyperparams] dict. *)
Inductive hval :=
| HInt (z : Z)
| HFloat (r : R)
| HStr (s : string)
| HLayers (l : list (Z * Z)).

(** A Python dict: insertion-ordered; assigning an existing key keeps its
    position. *)
Definition dict := list (string * hval).

Fixpoint dict_set (k : string) (v : hval) (d : dict) : dict :=
  match d with
  | [] => [(k, v)]
  | (k', v') :: t => if String.eqb k k' then (k, v) :: t else (k', v') :: dict_set k v t
  end.

Fixpoint dict_get (k : string) (d : dict) : option hval :=
  match d with
  | [] => None
  | (k', v) :: t => if String.eqb k k' then Some v else dict_get k t
  end.

Definition hyperparams_defaults : dict :=
  [("model", HStr "scnn2"); ("epochs", HInt 20); ("learning_rate", HFloat (1 / 1000));
   ("weight_decay", HFloat (5 / 100000)); ("batch_size", HInt 100);
   ("hidden_layers", HLayers [(3, 16); (3, 16); (3, 16)]%Z);
   ("k1_scnn", HInt 2); ("k2_scnn", HInt 2); ("describe", HInt 1); ("reverse", HInt 1);
   ("load_data", HInt 1); ("load_model", HInt 0); ("markov", HInt 0);
   ("model_name", HStr "model"); ("regional", HInt 0); ("flip_edges", HInt 0);
   ("data_folder_suffix", HStr "working"); ("multi_graph", HStr EmptyString);
   ("holes", HInt 1)]%string.

(** [s[0]] on a Python string. *)
Definition str_index0 (s : string) : M ascii :=
  match s with
  | EmptyString => raise IndexError
  | String c _ => ret c
  end.

(** [s[1:]] *)
Definition str_drop1 (s : string) : string :=
  match s with
  | EmptyString => EmptyString
  | String _ t => t
  end.

(** [s.split("_")] *)
Fixpoint split_us (s : string) : list string :=
  match s with
  | EmptyString => [EmptyString]
  | String c t =>
      let r := split_us t in
      if Ascii.eqb c "_"%char then EmptyString :: r
      else match r with
           | f :: rest => String c f :: rest
           | [] => [String c EmptyString]
           end
  end.

(** [for j in range(0, len(nums), 2): hl += [(nums[j], nums[j + 1])]],
    the [t]-th iteration having [j = 2 * t]. *)
Definition hidden_layers_body (nums : list Z) (t : nat) (hl : list (Z * Z))
    : M (list (Z * Z)) :=
  a <- py_index nums (Z.of_nat (2 * t)) ;;
  b <- py_index nums (Z.of_nat (2 * t) + 1) ;;
  ret (hl ++ [(a, b)]).

Definition hidden_layers_of (nums : list Z) : M (list (Z * Z)) :=
  for_range ((length nums + 1) / 2) (hidden_layers_body nums) [].

(** The reading of the docstring ("input [(3, 8), (3, 8)] as 3_8_3_8"):
    the fields taken two by two. *)
Definition pair_at (nums : list Z) (t : nat) : Z * Z :=
  (nth (2 * t) nums 0%Z, nth (2 * t + 1) nums 0%Z).

Definition consecutive_pairs (nums : list Z) : list (Z * Z) :=
  map (pair_at nums) (seq 0 (length nums / 2)).

Definition str_keys : list string :=
  ["model_name"; "data_folder_suffix"; "multi_graph"; "model"]%string.

Section Hyperparams.

(** The builtins [int] and [float] on strings; [None] is a [ValueError]. *)
Variable py_int : string -> option Z.
Variable py_float : string -> option R.

Definition int_m (s : string) : M Z :=
  match py_int s with Some z => ret z | None => raise ValueError end.

Definition float_m (s : string) : M R :=
  match py_float s with Some r => ret r | None => raise ValueError end.

(** One iteration of [for i in range(len(args) - 1)]. *)
Definition hyperparams_step (args : list string) (i : nat) (hp : dict) : M dict :=
  a <- py_index args (Z.of_nat i) ;;
  c <- str_index0 a ;;
  if Ascii.eqb c "-"%char then
    let key := str_drop1 a in
    if String.eqb key "hidden_layers" then
      v <- py_index args (Z.of_nat i + 1) ;;
      nums <- map_m int_m (split_us v) ;;
      hl <- hidden_layers_of nums ;;
      ret (dict_set key (HLayers hl) hp)
    else if existsb (String.eqb key) str_keys then
      v <- py_index args (Z.of_nat i + 1) ;;
      ret (dict_set key (HStr v) hp)
    else
      v <- py_index args (Z.of_nat i + 1) ;;
      f <- float_m v ;;
      ret (dict_set key (HFloat f) hp)
  else ret hp.

Definition hyperparams (args : list string) : M dict :=
  for_range (length args - 1) (hyperparams_step args) hyperparams_defaults.

End Hyperparams.

(** ** [train_model]: the mixed forward/backward Markov dataset *)

(** One reversed Markov example: [p = path[::-1]], then [p[:-2]], [p[-2]]
    and [p[-1]]. *)
Definition reversed_example (path : list nat) : M (list nat * nat * nat) :=
  let p := rev path in
  t1 <- py_index p (-2) ;;
  t2 <- py_index p (-1) ;;
  ret (firstn (length p - 2) p, t1, t2).





(** ** Output distributions *)

(** [np.exp(out).sum()] over every slot of an output array. *)
Definition exp_total (o : mat) : R :=
  sum (rows o) (fun i => sum (cols o) (fun j => exp (ent o i j))).

(** Every successful output of [run] that is nonempty sums to 1 after
    exponentiation, over all of its slots. *)
Definition softmax_run (run : M mat) : Prop :=
  forall l o, run = (l, Ok o) -> (0 < rows o)%nat -> (0 < cols o)%nat -> exp_total o = 1.

(** Every successful output of [run] is the log-softmax of logits with one
    row per row of the selector [Bc], and a zero row of [Bc] (a padding
    slot) gives logits 0. *)
Definition padding_logit_zero (Bc : mat) (run : M mat) : Prop :=
  forall l o, run = (l, Ok o) ->
  exists logits, o = log_softmax logits /\ rows logits = rows Bc /\
    (forall i j, (forall k, ent Bc i k = 0) -> ent logits i j = 0).

Definition selector_softmax (Bc : mat) (run : M mat) : Prop :=
  softmax_run run /\ padding_logit_zero Bc run.

(** A path graph [0 - 1 - 2]: its adjacency lists and its node-to-edge
    incidence matrix [B1] (edges [(0,1)] and [(1,2)]). *)
Definition path3_adj : list (list nat) := [[1%nat]; [0%nat; 2%nat]; [1%nat]].

Definition path3_B1 : mat :=
  mk 3 2 (fun i j =>
    if Nat.eqb j 0 then (if Nat.eqb i 0 then -1 else if Nat.eqb i 1 then 1 else 0)
    else (if Nat.eqb i 1 then -1 else if Nat.eqb i 2 then 1 else 0)).

(** ** Specification predicates *)

(** The outcome of a forward pass with respect to the weight-count check
    [ok]: if the check fails the pass raises [AssertionError] having
    performed no matrix product; a successful pass passed the check and
    performed exactly [matmuls] products. *)
Definition validates {A} (run : M A) (ok : bool) (matmuls : nat) : Prop :=
  (ok = false -> run = ([], Err AssertionError)) /\
  (forall l o, run = (l, Ok o) -> ok = true /\ length l = matmuls).

(** A Gram array [G a b = sum_k P k a * P k b]. *)
Definition gram (m n : nat) (P : nat -> nat -> R) : mat :=
  mk n n (fun a b => sum m (fun k => P k a * P k b)).

(** ** Output predicates of the forward passes *)

(** An array whose entries are all 0. *)
Definition zero_mat (X : mat) : Prop := forall i j, ent X i j = 0.

(** Every successful output of [run] is the uniform log-distribution over
    its slots. *)
Definition uniform_run (run : M mat) : Prop :=
  forall l o, run = (l, Ok o) ->
  forall i j, (i < rows o)%nat -> (j < cols o)%nat -> ent o i j = - ln (INR (rows o * cols o)).

(** Every entry of a successful output of [run] is at most 0. *)
Definition nonpos_run (run : M mat) : Prop :=
  forall l o, run = (l, Ok o) ->
  forall i j, (i < rows o)%nat -> (j < cols o)%nat -> ent o i j <= 0.

(** The three arrays of a [bunch_func] layer state are all zero. *)
Definition zero_triple (t : mat * mat * mat) : Prop :=
  zero_mat (fst (fst t)) /\ zero_mat (snd (fst t)) /\ zero_mat (snd t).

(** A run that does not end in [IndexError]. *)
Definition no_index_error {A} (run : M A) : Prop := snd run <> Err IndexError.

(** * Properties *)

(** ** The monad *)

Lemma bind_ok {A B} (l : list event) (a : A) (k : A -> M B) :
  bind (l, Ok a) k = (l ++ fst (k a), snd (k a)).
Proof. simpl. destruct (k a); reflexivity. Qed.

Lemma bind_ret {A B} (a : A) (k : A -> M B) : bind (ret a) k = k a.
Proof. unfold ret; simpl. destruct (k a); reflexivity. Qed.

Lemma bind_err {A B} (l : list event) (e : exn) (k : A -> M B) :
  bind (l, Err e) k = (l, Err e).
Proof. reflexivity. Qed.

(** A successful [bind] comes from a successful first step. *)
Lemma bind_ok_inv {A B} (m : M A) (k : A -> M B) l b :
  bind m k = (l, Ok b) ->
  exists l1 a l2, m = (l1, Ok a) /\ k a = (l2, Ok b) /\ l = l1 ++ l2.
Proof.
  destruct m as [l1 [a|e]]; simpl; [|discriminate].
  destruct (k a) as [l2 r] eqn:Hk; intros H; inversion H; subst.
  exists l1, a, l2. auto.
Qed.

Lemma py_index_nat {A} (l : list A) (i : nat) (d : A) :
  (i < length l)%nat -> py_index l (Z.of_nat i) = ret (nth i l d).
Proof.
  intros Hi. unfold py_index, py_norm.
  replace (Z.of_nat i <? 0)%Z with false by (symmetry; apply Z.ltb_ge; lia).
  replace ((0 <=? Z.of_nat i)%Z && (Z.of_nat i <? Z.of_nat (length l))%Z)%bool
    with true by (symmetry; apply andb_true_iff; split; [apply Z.leb_le|apply Z.ltb_lt]; lia).
  rewrite Nat2Z.id. rewrite (nth_error_nth' l d Hi). reflexivity.
Qed.

(** ** The regional split *)

Lemma nth_map_seq {A} (f : nat -> A) n i d :
  (i < n)%nat -> nth i (map f (seq 0 n)) d = f i.
Proof.
  intros Hi. rewrite nth_indep with (d' := f 0%nat) by (rewrite length_map, length_seq; lia).
  rewrite map_nth, seq_nth by lia. reflexivity.
Qed.

Lemma nth_regional_train n i :
  (i < n)%nat -> nth i (regional_train_mask n) 0%Z = if Nat.eqb (i mod 3) 1 then 1%Z else 0%Z.
Proof. apply nth_map_seq. Qed.

Lemma nth_regional_test n i :
  (i < n)%nat -> nth i (regional_test_mask n) 0%Z = if Nat.eqb (i mod 3) 2 then 1%Z else 0%Z.
Proof. apply nth_map_seq. Qed.

(** C9: under the regional configuration the train mask marks exactly the
    indices [i] with [i mod 3 = 1] and the test mask exactly those with
    [i mod 3 = 2]; no index is in both, and together they cover exactly the
    indices of these two thirds. *)
Theorem regional_masks_partition (n i : nat) :
  (i < n)%nat ->
  length (regional_train_mask n) = n /\ length (regional_test_mask n) = n /\
  (nth i (regional_train_mask n) 0%Z = 1%Z <-> i mod 3 = 1)%nat /\
  (nth i (regional_test_mask n) 0%Z = 1%Z <-> i mod 3 = 2)%nat /\
  ~ (nth i (regional_train_mask n) 0%Z = 1%Z /\ nth i (regional_test_mask n) 0%Z = 1%Z) /\
  (nth i (regional_train_mask n) 0%Z = 1%Z \/ nth i (regional_test_mask n) 0%Z = 1%Z
   <-> i mod 3 = 1 \/ i mod 3 = 2)%nat.
Proof.
  intros Hi.
  rewrite (nth_regional_train n i Hi), (nth_regional_test n i Hi).
  unfold regional_train_mask, regional_test_mask.
  rewrite !length_map, !length_seq.
  destruct (Nat.eqb_spec (i mod 3) 1); destruct (Nat.eqb_spec (i mod 3) 2);
    repeat split; intros;
    repeat match goal with H : _ /\ _ |- _ => destruct H | H : _ \/ _ |- _ => destruct H end;
    first [lia | discriminate | now left | now right | idtac].
Qed.

Lemma regional_masks_partition_witness :
  (4 < 9)%nat /\
  (length (regional_train_mask 9) = 9 /\ length (regional_test_mask 9) = 9 /\
  (nth 4 (regional_train_mask 9) 0%Z = 1%Z <-> 4 mod 3 = 1) /\
  (nth 4 (regional_test_mask 9) 0%Z = 1%Z <-> 4 mod 3 = 2) /\
  ~ (nth 4 (regional_train_mask 9) 0%Z = 1%Z /\ nth 4 (regional_test_mask 9) 0%Z = 1%Z) /\
  (nth 4 (regional_train_mask 9) 0%Z = 1%Z \/ nth 4 (regional_test_mask 9) 0%Z = 1%Z
   <-> 4 mod 3 = 1 \/ 4 mod 3 = 2))%nat.
Proof. split; [lia | apply (regional_masks_partition 9 4); lia]. Defined.

(** ** The prefix cache fallback *)

Lemma map_m_ret {A B} (f : A -> M B) (h : A -> B) (l : list A) :
  (forall x, In x l -> f x = ret (h x)) -> map_m f l = ret (map h l).
Proof.
  induction l as [|x t IH]; intros Hf; [reflexivity|].
  simpl. rewrite (Hf x (or_introl eq_refl)), bind_ret.
  rewrite IH by (intros; apply Hf; now right). rewrite bind_ret. reflexivity.
Qed.

Lemma map_seq_combine {A B C} (h : A -> B -> C) (l1 : list A) (l2 : list B) d1 d2 :
  (length l2 <= length l1)%nat ->
  map (fun i => h (nth i l1 d1) (nth i l2 d2)) (seq 0 (length l2))
  = map (fun p => h (fst p) (snd p)) (combine l1 l2).
Proof.
  revert l1. induction l2 as [|y t IH]; intros [|x l1] Hl; simpl in *; try lia; auto.
  f_equal. rewrite <- seq_shift, map_map. apply IH. lia.
Qed.

(** C10: when [np.load] of the prefix cache fails, with any exception,
    [data_setup] recomputes one prefix per example with [flow_to_path]
    applied to the example's flow and last node, and raises nothing. *)
Theorem load_prefixes_fallback {Path Edges : Type}
    (flow_to_path : mat -> Edges -> Z -> Path) (e : exn)
    (flows : list mat) (E : Edges) (last_nodes : list Z) :
  (length last_nodes <= length flows)%nat ->
  load_prefixes flow_to_path (Err e) flows E last_nodes
  = ([], Ok (map (fun p => flow_to_path (fst p) E (snd p)) (combine flows last_nodes))).
Proof.
  intros Hl. unfold load_prefixes.
  rewrite (map_m_ret _ (fun i => flow_to_path (nth i flows (zeros 0 0)) E (nth i last_nodes 0%Z))).
  - unfold ret. do 2 f_equal.
    exact (map_seq_combine (fun f n => flow_to_path f E n) flows last_nodes _ _ Hl).
  - intros i Hi. apply in_seq in Hi.
    rewrite (py_index_nat flows i (zeros 0 0)) by lia. rewrite bind_ret.
    rewrite (py_index_nat last_nodes i 0%Z) by lia. rewrite bind_ret. reflexivity.
Qed.

Lemma load_prefixes_fallback_witness :
  (length [3%Z; 4%Z] <= length [zeros 2 1; zeros 2 1])%nat /\
  load_prefixes (fun (_ : mat) (_ : unit) (n : Z) => [n]) (Err IOError)
    [zeros 2 1; zeros 2 1] tt [3%Z; 4%Z]
  = ([], Ok (map (fun p => (fun (_ : mat) (_ : unit) (n : Z) => [n]) (fst p) tt (snd p))
                 (combine [zeros 2 1; zeros 2 1] [3%Z; 4%Z]))).
Proof. split; [simpl; lia | apply load_prefixes_fallback; simpl; lia]. Defined.

(** ** Weight-count validation and the number of products *)

Lemma ret_ok_inv {A} (a b : A) l : ret a = (l, Ok b) -> l = [] /\ a = b.
Proof. unfold ret; intros H; inversion H; auto. Qed.

Lemma assert_ok_inv b l u : assert b = (l, Ok u) -> l = [] /\ b = true.
Proof. unfold assert, ret, raise; destruct b; intros H; inversion H; auto. Qed.

Lemma matmul_ok_inv A B l C :
  matmul A B = (l, Ok C) -> l = [Ev_matmul] /\ cols A = rows B /\ C = mm A B.
Proof.
  unfold matmul, raise. destruct (Nat.eqb_spec (cols A) (rows B)); intros H; inversion H; auto.
Qed.

Lemma py_index_ok_inv {A} (xs : list A) k l a : py_index xs k = (l, Ok a) -> l = [].
Proof.
  unfold py_index, ret, raise.
  destruct (_ && _)%bool; [destruct nth_error|]; intros H; inversion H; auto.
Qed.

Lemma add_ok_inv A B l C : add A B = (l, Ok C) -> l = [].
Proof.
  unfold add, ret, raise.
  destruct (bdim (rows A) (rows B)), (bdim (cols A) (cols B)); intros H; inversion H; auto.
Qed.

(** Take a successful chain of binds apart. *)
Ltac split_binds :=
  repeat match goal with
  | H : bind _ _ = (_, Ok _) |- _ =>
      let l1 := fresh "l" in let a := fresh "a" in let l2 := fresh "l" in
      let H1 := fresh "H" in let H2 := fresh "H" in
      apply bind_ok_inv in H; destruct H as (l1 & a & l2 & H1 & H2 & ->); cbv beta in H2
  end.

(** Read off the products logged by each successful step. *)
Ltac count_steps :=
  repeat match goal with
  | H : ret _ = (_, Ok _) |- _ => apply ret_ok_inv in H; destruct H as [-> ?]
  | H : assert _ = (_, Ok _) |- _ => apply assert_ok_inv in H; destruct H as [-> ?]
  | H : matmul _ _ = (_, Ok _) |- _ => apply matmul_ok_inv in H; destruct H as (-> & ? & ?)
  | H : py_index _ _ = (_, Ok _) |- _ => apply py_index_ok_inv in H; subst
  | H : add _ _ = (_, Ok _) |- _ => apply add_ok_inv in H; subst
  end.

Lemma own_term_count ws x k l y : own_term ws x k = (l, Ok y) -> length l = 1%nat.
Proof. unfold own_term; intros H; split_binds; count_steps; reflexivity. Qed.

Lemma shift_term_count ws S x k l y : shift_term ws S x k = (l, Ok y) -> length l = 2%nat.
Proof. unfold shift_term; intros H; split_binds; count_steps; reflexivity. Qed.

Lemma readout_count ws Bc x l y : readout ws Bc x = (l, Ok y) -> length l = 2%nat.
Proof. unfold readout; intros H; split_binds; count_steps; reflexivity. Qed.

Ltac count_terms :=
  repeat match goal with
  | H : own_term _ _ _ = (_, Ok _) |- _ => apply own_term_count in H
  | H : shift_term _ _ _ _ = (_, Ok _) |- _ => apply shift_term_count in H
  | H : readout _ _ _ = (_, Ok _) |- _ => apply readout_count in H
  end;
  count_steps; rewrite ?length_app; simpl length; lia.

Lemma for_range_from_count {A} (body : nat -> A -> M A) (c : nat) :
  (forall i x l y, body i x = (l, Ok y) -> length l = c) ->
  forall n i x l y, for_range_from i n body x = (l, Ok y) -> length l = (n * c)%nat.
Proof.
  intros Hb n. induction n as [|n IH]; intros i x l y H; simpl in H.
  - apply ret_ok_inv in H. destruct H as [-> _]. reflexivity.
  - split_binds. apply Hb in H0. apply IH in H1. rewrite length_app. lia.
Qed.

Lemma scone_layer_count ws SL SU i x l y :
  scone_layer ws SL SU i x = (l, Ok y) -> length l = 5%nat.
Proof. unfold scone_layer; intros H; split_binds; count_terms. Qed.

Lemma scnn_layer_2_count ws n_k S1 S2 U1 U2 i x l y :
  scnn_layer_2 ws n_k S1 S2 U1 U2 i x = (l, Ok y) -> length l = 9%nat.
Proof. unfold scnn_layer_2; intros H; split_binds; count_terms. Qed.

Lemma scnn_layer_3_count ws n_k S1 S2 S3 U1 U2 U3 i x l y :
  scnn_layer_3 ws n_k S1 S2 S3 U1 U2 U3 i x = (l, Ok y) -> length l = 13%nat.
Proof. unfold scnn_layer_3; intros H; split_binds; count_terms. Qed.

Lemma scnn_layer_4_count ws n_k S1 S2 S3 S4 U1 U2 U3 U4 i x l y :
  scnn_layer_4 ws n_k S1 S2 S3 S4 U1 U2 U3 U4 i x = (l, Ok y) -> length l = 17%nat.
Proof. unfold scnn_layer_4; intros H; split_binds; count_terms. Qed.

Lemma ebli_layer_count ws S S2 S3 i x l y :
  ebli_layer ws S S2 S3 i x = (l, Ok y) -> length l = 7%nat.
Proof. unfold ebli_layer; intros H; split_binds; count_terms. Qed.

Lemma bunch_layer_count ws S00 S10 S01 S11 S21 S12 S22 i x l y :
  bunch_layer ws S00 S10 S01 S11 S21 S12 S22 i x = (l, Ok y) -> length l = 14%nat.
Proof.
  destruct x as [[c0 c1] c2]. unfold bunch_layer; intros H; split_binds; count_terms.
Qed.

(** The common shape of the forward passes: check, loop, read out. *)
Lemma check_loop_validates {X} (ok : bool) (n : nat) (body : nat -> X -> M X) (x0 : X)
    (final : X -> M mat) (c f : nat) :
  (forall i x l y, body i x = (l, Ok y) -> length l = c) ->
  (forall x l y, final x = (l, Ok y) -> length l = f) ->
  validates (_ <- assert ok ;; cur_out <- for_range n body x0 ;; final cur_out)
            ok (n * c + f).
Proof.
  intros Hb Hf. split.
  - intros ->. reflexivity.
  - intros l o H. split_binds. count_steps.
    match goal with H : for_range _ _ _ = _ |- _ => apply (for_range_from_count body c Hb) in H end.
    match goal with H : final _ = _ |- _ => apply Hf in H end.
    split; [assumption|]. rewrite !length_app. simpl. lia.
Qed.

(** Evaluate a forward pass on concrete arrays, leaving real arithmetic alone. *)
Ltac run_concrete := lazy -[Rplus Rmult Rminus Rdiv Rinv Ropp IZR tanh exp ln Rmax].

(** The family instances. *)

Lemma scone_func_validates ws SL SU Bc n flow :
  let num := (Z.of_nat (length ws) - 1)%Z in
  validates (scone_func ws SL SU Bc n flow) (layers_ok num 3) (n_layers_of num 3 * 5 + 2).
Proof.
  apply check_loop_validates; [apply scone_layer_count | intros; eapply readout_count; eauto].
Qed.

Lemma ebli_func_validates ws S S2 S3 Bc n flow :
  let num := (Z.of_nat (length ws) - 1)%Z in
  validates (ebli_func ws S S2 S3 Bc n flow) (layers_ok num 4) (n_layers_of num 4 * 7 + 2).
Proof.
  apply check_loop_validates; [apply ebli_layer_count | intros; eapply readout_count; eauto].
Qed.

Lemma scnn_func_2_validates ws S1 S2 U1 U2 Bc n flow k1 k2 :
  let num := (Z.of_nat (length ws) - 1)%Z in
  let n_k := Z.of_nat (1 + k1 + k2) in
  validates (scnn_func_2 ws S1 S2 U1 U2 Bc n flow k1 k2)
            (layers_ok num n_k) (n_layers_of num n_k * 9 + 2).
Proof.
  apply check_loop_validates; [apply scnn_layer_2_count | intros; eapply readout_count; eauto].
Qed.

Lemma scnn_func_3_validates ws S1 S2 S3 U1 U2 U3 Bc n flow k1 k2 :
  let num := (Z.of_nat (length ws) - 1)%Z in
  let n_k := Z.of_nat (1 + k1 + k2) in
  validates (scnn_func_3 ws S1 S2 S3 U1 U2 U3 Bc n flow k1 k2)
            (layers_ok num n_k) (n_layers_of num n_k * 13 + 2).
Proof.
  apply check_loop_validates; [apply scnn_layer_3_count | intros; eapply readout_count; eauto].
Qed.

Lemma scnn_func_4_validates ws S1 S2 S3 S4 U1 U2 U3 U4 Bc n flow k1 k2 :
  let num := (Z.of_nat (length ws) - 1)%Z in
  let n_k := Z.of_nat (1 + k1 + k2) in
  validates (scnn_func_4 ws S1 S2 S3 S4 U1 U2 U3 U4 Bc n flow k1 k2)
            (layers_ok num n_k) (n_layers_of num n_k * 17 + 2).
Proof.
  apply check_loop_validates; [apply scnn_layer_4_count | intros; eapply readout_count; eauto].
Qed.

Lemma bunch_func_validates ws S00 S10 S01 S11 S21 S12 S22 nbr n flow :
  let num := Z.of_nat (length ws) in
  validates (bunch_func ws S00 S10 S01 S11 S21 S12 S22 nbr n flow)
            (layers_ok num 7) (n_layers_of num 7 * 14 + 0).
Proof.
  apply check_loop_validates; [apply bunch_layer_count|].
  intros [[c0 c1] c2] l y H. apply ret_ok_inv in H. destruct H as [-> _]. reflexivity.
Qed.

(** C3 (as stated): the base family with four weights, [4 - 1 = 3] not a
    multiple of its two operators, passes the check and runs. *)
Lemma weight_count_base_counterexample :
  ((Z.of_nat 4 - 1) mod 2 <> 0)%Z /\
  exists o, scone_func (repeat (scalar_mat 1) 4) (scalar_mat 1) (scalar_mat 1)
                       (fun _ => scalar_mat 1) 0%Z (scalar_mat 1)
            = (repeat Ev_matmul 7, Ok o).
Proof. split; [discriminate | eexists; run_concrete; reflexivity]. Qed.

(** C3 (amended): every forward pass checks the length of its weight list
    before any matrix product, against its group size [g]: [len - 1] must be
    a multiple of 3 ([scone_func], identity + 2 operators), 4 ([ebli_func]),
    [1 + k1 + k2] ([scnn_func_2/3/4]; 5 with the defaults), and [len] a
    multiple of 7 ([bunch_func]).  A failed check raises [AssertionError]
    with no product performed; a successful pass ran [(len - 1) / g]
    (resp. [len / 7]) layers, seen in its count of products: per layer 5,
    7, 9, 13, 17 and 14, plus 2 for the read-out (0 for [bunch_func]). *)
Theorem weight_count_checked_first :
  (forall ws SL SU Bc n flow,
     let num := (Z.of_nat (length ws) - 1)%Z in
     validates (scone_func ws SL SU Bc n flow) (layers_ok num 3) (n_layers_of num 3 * 5 + 2)) /\
  (forall ws S S2 S3 Bc n flow,
     let num := (Z.of_nat (length ws) - 1)%Z in
     validates (ebli_func ws S S2 S3 Bc n flow) (layers_ok num 4) (n_layers_of num 4 * 7 + 2)) /\
  (forall ws S1 S2 U1 U2 Bc n flow k1 k2,
     let num := (Z.of_nat (length ws) - 1)%Z in
     let n_k := Z.of_nat (1 + k1 + k2) in
     validates (scnn_func_2 ws S1 S2 U1 U2 Bc n flow k1 k2)
               (layers_ok num n_k) (n_layers_of num n_k * 9 + 2)) /\
  (forall ws S1 S2 S3 U1 U2 U3 Bc n flow k1 k2,
     let num := (Z.of_nat (length ws) - 1)%Z in
     let n_k := Z.of_nat (1 + k1 + k2) in
     validates (scnn_func_3 ws S1 S2 S3 U1 U2 U3 Bc n flow k1 k2)
               (layers_ok num n_k) (n_layers_of num n_k * 13 + 2)) /\
  (forall ws S1 S2 S3 S4 U1 U2 U3 U4 Bc n flow k1 k2,
     let num := (Z.of_nat (length ws) - 1)%Z in
     let n_k := Z.of_nat (1 + k1 + k2) in
     validates (scnn_func_4 ws S1 S2 S3 S4 U1 U2 U3 U4 Bc n flow k1 k2)
               (layers_ok num n_k) (n_layers_of num n_k * 17 + 2)) /\
  (forall ws S00 S10 S01 S11 S21 S12 S22 nbr n flow,
     let num := Z.of_nat (length ws) in
     validates (bunch_func ws S00 S10 S01 S11 S21 S12 S22 nbr n flow)
               (layers_ok num 7) (n_layers_of num 7 * 14 + 0)).
Proof.
  exact (conj scone_func_validates (conj ebli_func_validates
           (conj scnn_func_2_validates (conj scnn_func_3_validates
           (conj scnn_func_4_validates bunch_func_validates))))).
Qed.

Lemma weight_count_checked_first_witness :
  layers_ok (Z.of_nat 3 - 1) 3 = false /\
  scone_func (repeat (scalar_mat 1) 3) (scalar_mat 1) (scalar_mat 1)
             (fun _ => scalar_mat 1) 0%Z (scalar_mat 1) = ([], Err AssertionError).
Proof.
  split; [reflexivity|].
  apply (proj1 (proj1 weight_count_checked_first (repeat (scalar_mat 1) 3) (scalar_mat 1)
                 (scalar_mat 1) (fun _ => scalar_mat 1) 0%Z (scalar_mat 1))).
  reflexivity.
Defined.

(** ** The weight group of [scnn_func_3] and [scnn_func_4] *)

Lemma py_index_out_of_range {A} (xs : list A) (k : Z) l a :
  (Z.of_nat (length xs) <= k)%Z -> py_index xs k <> (l, Ok a).
Proof.
  intros Hk. unfold py_index, py_norm, raise.
  destruct (Z.ltb_spec k 0); [lia|].
  destruct (Z.ltb_spec k (Z.of_nat (length xs))); [lia|].
  rewrite andb_false_r. discriminate.
Qed.

(** C7: with the default [k1_scnn = k2_scnn = 2] the weight group of
    [scnn_func_3] and [scnn_func_4] is [1 + 2 + 2 = 5], not the [7] resp. [9]
    weights a layer reads.  A list of 6 weights passes the check ([n_layers =
    1]) but the first layer reads [weights[6]]: no pass over such a list
    succeeds, and on [1 x 1] data it stops with [IndexError] after 12
    products. *)
Theorem scnn_weight_group_too_small :
  layers_ok (Z.of_nat 6 - 1) (Z.of_nat (1 + HYPERPARAMS_k1_scnn + HYPERPARAMS_k2_scnn)) = true /\
  n_layers_of (Z.of_nat 6 - 1) (Z.of_nat (1 + HYPERPARAMS_k1_scnn + HYPERPARAMS_k2_scnn)) = 1%nat /\
  (forall ws S1 S2 S3 U1 U2 U3 Bc n flow l o,
     length ws = 6%nat ->
     scnn_func_3 ws S1 S2 S3 U1 U2 U3 Bc n flow HYPERPARAMS_k1_scnn HYPERPARAMS_k2_scnn
     <> (l, Ok o)) /\
  (forall ws S1 S2 S3 S4 U1 U2 U3 U4 Bc n flow l o,
     length ws = 6%nat ->
     scnn_func_4 ws S1 S2 S3 S4 U1 U2 U3 U4 Bc n flow HYPERPARAMS_k1_scnn HYPERPARAMS_k2_scnn
     <> (l, Ok o)) /\
  scnn_func_3 (repeat (scalar_mat 1) 6) (scalar_mat 1) (scalar_mat 1) (scalar_mat 1)
    (scalar_mat 1) (scalar_mat 1) (scalar_mat 1) (fun _ => scalar_mat 1) 0%Z (scalar_mat 1)
    HYPERPARAMS_k1_scnn HYPERPARAMS_k2_scnn = (repeat Ev_matmul 12, Err IndexError) /\
  scnn_func_4 (repeat (scalar_mat 1) 6) (scalar_mat 1) (scalar_mat 1) (scalar_mat 1)
    (scalar_mat 1) (scalar_mat 1) (scalar_mat 1) (scalar_mat 1) (scalar_mat 1)
    (fun _ => scalar_mat 1) 0%Z (scalar_mat 1)
    HYPERPARAMS_k1_scnn HYPERPARAMS_k2_scnn = (repeat Ev_matmul 12, Err IndexError).
Proof.
  split; [reflexivity|]. split; [reflexivity|].
  split; [|split; [|split]].
  - intros ws S1 S2 S3 U1 U2 U3 Bc n flow l o Hlen H.
    unfold scnn_func_3 in H. rewrite Hlen in H. cbv zeta in H.
    split_binds.
    match goal with H : for_range _ _ _ = _ |- _ =>
      replace (n_layers_of _ _) with 1%nat in H by reflexivity;
      cbv [for_range for_range_from] in H end.
    split_binds.
    unfold scnn_layer_3, shift_term in *. split_binds.
    match goal with H : py_index ws (Z.of_nat 0 * _ + 6) = _ |- _ =>
      eapply py_index_out_of_range; [|exact H] end.
    rewrite Hlen. simpl. lia.
  - intros ws S1 S2 S3 S4 U1 U2 U3 U4 Bc n flow l o Hlen H.
    unfold scnn_func_4 in H. rewrite Hlen in H. cbv zeta in H.
    split_binds.
    match goal with H : for_range _ _ _ = _ |- _ =>
      replace (n_layers_of _ _) with 1%nat in H by reflexivity;
      cbv [for_range for_range_from] in H end.
    split_binds.
    unfold scnn_layer_4, shift_term in *. split_binds.
    match goal with H : py_index ws (Z.of_nat 0 * _ + 6) = _ |- _ =>
      eapply py_index_out_of_range; [|exact H] end.
    rewrite Hlen. simpl. lia.
  - run_concrete. reflexivity.
  - run_concrete. reflexivity.
Qed.

Lemma scnn_weight_group_too_small_witness :
  length (repeat (scalar_mat 1) 6) = 6%nat /\
  scnn_func_3 (repeat (scalar_mat 1) 6) (scalar_mat 1) (scalar_mat 1) (scalar_mat 1)
    (scalar_mat 1) (scalar_mat 1) (scalar_mat 1) (fun _ => scalar_mat 1) 0%Z (scalar_mat 1)
    HYPERPARAMS_k1_scnn HYPERPARAMS_k2_scnn <> ([], Ok (scalar_mat 0)).
Proof.
  split; [reflexivity|].
  apply (proj1 (proj2 (proj2 scnn_weight_group_too_small))). reflexivity.
Defined.

(** ** The fourth lower power in [scnn_func_4] *)

Lemma tanh_0 : tanh 0 = 0.
Proof. unfold tanh. rewrite sinh_0, cosh_0. field. Qed.

Lemma cosh_pos x : 0 < cosh x.
Proof. unfold cosh. pose proof (exp_pos x). pose proof (exp_pos (- x)). lra. Qed.

Lemma tanh_pos x : 0 < x -> 0 < tanh x.
Proof.
  intros Hx. unfold tanh. pose proof (sinh_lt 0 x Hx) as Hs. rewrite sinh_0 in Hs.
  pose proof (cosh_pos x). apply Rdiv_lt_0_compat; assumption.
Qed.

(** Rewrite the argument of [tanh] in a concrete run to a given value. *)
Ltac tanh_arg_is v :=
  match goal with |- context [tanh ?e] => replace e with v by ring end.

(** C2: in [scnn_func_4] the term with weight [i*n_k + 4] multiplies
    [S4_upper], so the fourth lower power has no effect: the output does not
    depend on [S4_lower].  With [k1 = k2 = 4] ([n_k = 9]), one layer, and
    [S4_lower = 1], every other operator 0 and [weights[4] = 1], the code's
    two logits are equal while the pass as the spec describes it (each
    operator with its own weight) separates them. *)
Theorem scnn_func_4_ignores_S4_lower :
  (forall ws S1 S2 S3 S4 S4' U1 U2 U3 U4 Bc n flow k1 k2,
     scnn_func_4 ws S1 S2 S3 S4 U1 U2 U3 U4 Bc n flow k1 k2
     = scnn_func_4 ws S1 S2 S3 S4' U1 U2 U3 U4 Bc n flow k1 k2) /\
  (exists o,
     scnn_func_4 order4_weights (scalar_mat 0) (scalar_mat 0) (scalar_mat 0) (scalar_mat 1)
       (scalar_mat 0) (scalar_mat 0) (scalar_mat 0) (scalar_mat 0)
       (fun _ => two_slot_selector) 0%Z (scalar_mat 1) 4 4
     = (repeat Ev_matmul 19, Ok o) /\ ent o 0 0 = ent o 1 0) /\
  (exists o,
     scnn_func_4_intended order4_weights (scalar_mat 0) (scalar_mat 0) (scalar_mat 0)
       (scalar_mat 1) (scalar_mat 0) (scalar_mat 0) (scalar_mat 0) (scalar_mat 0)
       (fun _ => two_slot_selector) 0%Z (scalar_mat 1) 4 4
     = (repeat Ev_matmul 19, Ok o) /\ ent o 0 0 <> ent o 1 0).
Proof.
  split; [reflexivity|]. split.
  - eexists; split; [run_concrete; reflexivity|].
    run_concrete. tanh_arg_is 0. rewrite tanh_0. ring.
  - eexists; split; [run_concrete; reflexivity|].
    run_concrete. tanh_arg_is 1. pose proof (tanh_pos 1 Rlt_0_1). intros Heq. lra.
Qed.

(** ** Finite sums and canonical arrays *)

Lemma sum_ext n g h : (forall k, (k < n)%nat -> g k = h k) -> sum n g = sum n h.
Proof.
  induction n as [|n IH]; intros H; simpl; [reflexivity|].
  rewrite IH by (intros; apply H; lia). rewrite H by lia. reflexivity.
Qed.

Lemma sum_plus n g h : sum n (fun k => g k + h k) = sum n g + sum n h.
Proof. induction n as [|n IH]; simpl; [ring|]. rewrite IH. ring. Qed.

Lemma sum_mult_l n c g : c * sum n g = sum n (fun k => c * g k).
Proof. induction n as [|n IH]; simpl; [ring|]. rewrite <- IH. ring. Qed.

Lemma sum_mult_r n c g : sum n g * c = sum n (fun k => g k * c).
Proof. induction n as [|n IH]; simpl; [ring|]. rewrite <- IH. ring. Qed.

Lemma sum_swap n m g :
  sum n (fun i => sum m (fun j => g i j)) = sum m (fun j => sum n (fun i => g i j)).
Proof.
  induction n as [|n IH]; simpl.
  - induction m as [|m IHm]; simpl; [reflexivity|]. rewrite <- IHm. ring.
  - rewrite IH. rewrite <- sum_plus. reflexivity.
Qed.

Lemma sum_nonneg n g : (forall k, (k < n)%nat -> 0 <= g k) -> 0 <= sum n g.
Proof.
  induction n as [|n IH]; intros H; simpl; [lra|].
  pose proof (H n ltac:(lia)). pose proof (IH ltac:(intros; apply H; lia)). lra.
Qed.

Lemma sum_pos n g : (0 < n)%nat -> (forall k, (k < n)%nat -> 0 < g k) -> 0 < sum n g.
Proof.
  intros Hn H. destruct n as [|n]; [lia|]. simpl.
  pose proof (H n ltac:(lia)).
  assert (0 <= sum n g) by (apply sum_nonneg; intros; left; apply H; lia). lra.
Qed.

(** Only the [j]-th term is left. *)
Lemma sum_delta n j a :
  (j < n)%nat -> sum n (fun k => if Nat.eqb k j then a k else 0) = a j.
Proof.
  induction n as [|n IH]; intros Hj; [lia|]. simpl.
  destruct (Nat.eqb_spec n j) as [->|Hne].
  - rewrite (sum_ext _ _ (fun _ => 0)).
    + assert (Hz : forall m, sum m (fun _ => 0) = 0)
        by (intros m; induction m as [|m IHm]; simpl; [ring|rewrite IHm; ring]).
      rewrite Hz. ring.
    + intros k Hk. destruct (Nat.eqb_spec k j); [lia|reflexivity].
  - rewrite IH by lia. ring.
Qed.

Lemma ent_mk r c g i j :
  (i < r)%nat -> (j < c)%nat -> ent (mk r c g) i j = g i j.
Proof.
  intros Hi Hj. unfold mk; simpl.
  apply Nat.ltb_lt in Hi, Hj. rewrite Hi, Hj. reflexivity.
Qed.

Lemma mk_ext r c g h :
  (forall i j, (i < r)%nat -> (j < c)%nat -> g i j = h i j) -> mk r c g = mk r c h.
Proof.
  intros H. unfold mk. f_equal.
  extensionality i. extensionality j.
  destruct (Nat.ltb_spec i r), (Nat.ltb_spec j c); simpl; auto.
Qed.

Lemma ent_mm A B i j :
  (i < rows A)%nat -> (j < cols B)%nat ->
  ent (mm A B) i j = sum (cols A) (fun k => ent A i k * ent B k j).
Proof. apply ent_mk. Qed.

Lemma ent_transpose A i j :
  (i < cols A)%nat -> (j < rows A)%nat -> ent (transpose A) i j = ent A j i.
Proof. intros Hi Hj. unfold transpose. rewrite ent_mk by assumption. reflexivity. Qed.

(** ** The base operators are symmetric positive semi-definite *)

Lemma lower_is_gram B1 : mm (transpose B1) B1 = gram (rows B1) (cols B1) (ent B1).
Proof.
  unfold mm, gram.
  replace (rows (transpose B1)) with (cols B1) by reflexivity.
  replace (cols (transpose B1)) with (rows B1) by reflexivity.
  apply mk_ext. intros a b Ha Hb.
  apply sum_ext. intros k Hk. rewrite ent_transpose by lia. reflexivity.
Qed.

Lemma upper_is_gram B2 :
  mm B2 (transpose B2) = gram (cols B2) (rows B2) (fun k a => ent B2 a k).
Proof.
  unfold mm, gram.
  replace (cols (transpose B2)) with (rows B2) by reflexivity.
  apply mk_ext. intros a b Ha Hb.
  apply sum_ext. intros k Hk. rewrite ent_transpose by lia. reflexivity.
Qed.

Lemma gram_symmetric m n P : transpose (gram m n P) = gram m n P.
Proof.
  change (transpose (gram m n P)) with (mk n n (fun i j => ent (gram m n P) j i)).
  unfold gram at 2. apply mk_ext. intros a b Ha Hb.
  unfold gram. rewrite ent_mk by lia. apply sum_ext. intros k _. ring.
Qed.

Lemma gram_quadratic m n P x :
  rows x = n -> cols x = 1%nat ->
  ent (mm (mm (transpose x) (gram m n P)) x) 0 0
  = sum m (fun k => sum n (fun b => P k b * ent x b 0) * sum n (fun a => P k a * ent x a 0)).
Proof.
  intros Hr Hc. subst n.
  rewrite ent_mm by (simpl; lia).
  change (cols (mm (transpose x) (gram m (rows x) P))) with (rows x).
  rewrite (sum_ext _ _ (fun a => sum (rows x) (fun b => sum m (fun k =>
             ent x b 0 * (P k b * P k a) * ent x a 0)))).
  2:{ intros a Ha. rewrite ent_mm by (simpl; lia).
      change (cols (transpose x)) with (rows x).
      rewrite sum_mult_r. apply sum_ext. intros b Hb.
      rewrite ent_transpose by lia. unfold gram. rewrite ent_mk by lia.
      rewrite sum_mult_l, sum_mult_r. apply sum_ext. intros k _. ring. }
  rewrite (sum_ext _ _ (fun a => sum m (fun k => sum (rows x) (fun b =>
             ent x b 0 * (P k b * P k a) * ent x a 0))))
    by (intros; apply sum_swap).
  rewrite sum_swap. apply sum_ext. intros k _.
  rewrite sum_mult_r. apply sum_ext. intros a _.
  rewrite sum_mult_l. apply sum_ext. intros b _. ring.
Qed.

Lemma gram_psd m n P x :
  rows x = n -> cols x = 1%nat -> 0 <= ent (mm (mm (transpose x) (gram m n P)) x) 0 0.
Proof.
  intros Hr Hc. rewrite gram_quadratic by assumption.
  apply sum_nonneg. intros k _. apply Rle_0_sqr.
Qed.

(** C8: [lower = B1.T @ B1] and [upper = B2 @ B2.T] are square, equal to
    their transposes, and [x.T @ S @ x >= 0] for every column vector [x]. *)
Theorem shift_operators_symmetric_psd (B1 B2 : mat) :
  let lower := mm (transpose B1) B1 in
  let upper := mm B2 (transpose B2) in
  rows lower = cols B1 /\ cols lower = cols B1 /\ transpose lower = lower /\
  rows upper = rows B2 /\ cols upper = rows B2 /\ transpose upper = upper /\
  (forall x, rows x = cols B1 -> cols x = 1%nat ->
             0 <= ent (mm (mm (transpose x) lower) x) 0 0) /\
  (forall x, rows x = rows B2 -> cols x = 1%nat ->
             0 <= ent (mm (mm (transpose x) upper) x) 0 0).
Proof.
  intros lower upper. subst lower upper.
  rewrite lower_is_gram, upper_is_gram.
  repeat split; try apply gram_symmetric; intros; apply gram_psd; assumption.
Qed.

Lemma shift_operators_symmetric_psd_witness :
  (rows (scalar_mat 2) = cols (scalar_mat 1) /\ cols (scalar_mat 2) = 1%nat) /\
  0 <= ent (mm (mm (transpose (scalar_mat 2)) (mm (transpose (scalar_mat 1)) (scalar_mat 1)))
               (scalar_mat 2)) 0 0.
Proof.
  split; [split; reflexivity|].
  apply (proj1 (proj2 (proj2 (proj2 (proj2 (proj2 (proj2
           (shift_operators_symmetric_psd (scalar_mat 1) (scalar_mat 1))))))))
           (scalar_mat 2)); reflexivity.
Defined.

(** ** Orientation-flip invariance of [scone_func] *)

Lemma bind_mmap {A B C} (g : A -> B) (m : M A) (k : B -> M C) :
  bind (mmap g m) k = bind m (fun a => k (g a)).
Proof. destruct m as [l [a|e]]; reflexivity. Qed.

Lemma mmap_bind {A B C} (g : B -> C) (m : M A) (k : A -> M B) :
  mmap g (bind m k) = bind m (fun a => mmap g (k a)).
Proof.
  destruct m as [l [a|e]]; simpl; [|reflexivity].
  destruct (k a) as [l' [b|e]]; reflexivity.
Qed.

Lemma mmap_ret {A B} (g : A -> B) (a : A) : mmap g (ret a) = ret (g a).
Proof. reflexivity. Qed.

Lemma bind_ext_ok {A B} (m : M A) (k1 k2 : A -> M B) :
  (forall l a, m = (l, Ok a) -> k1 a = k2 a) -> bind m k1 = bind m k2.
Proof.
  destruct m as [l [a|e]]; intros H; simpl; [|reflexivity].
  rewrite (H l a eq_refl). reflexivity.
Qed.

Lemma canon_mk r c g : canon (mk r c g).
Proof.
  unfold canon. simpl. apply mk_ext. intros i j Hi Hj. apply ent_mk; assumption.
Qed.

(** Entries of a canonical array outside its shape are 0. *)
Lemma canon_ent A i j :
  canon A -> ent A i j = if (Nat.ltb i (rows A) && Nat.ltb j (cols A))%bool then ent A i j else 0.
Proof. unfold canon. intros H. rewrite <- H at 1. reflexivity. Qed.

Lemma sign_sq flips k :
  Forall (fun v => v = 1 \/ v = -1) flips -> nth k flips 0 * nth k flips 0 = 1 \/ (length flips <= k)%nat.
Proof.
  intros Hf. destruct (Nat.lt_ge_cases k (length flips)) as [Hk|Hk]; [left|right; exact Hk].
  rewrite Forall_forall in Hf. destruct (Hf (nth k flips 0) (nth_In _ _ Hk)) as [-> | ->]; ring.
Qed.

Lemma sign_sq_lt flips k :
  Forall (fun v => v = 1 \/ v = -1) flips -> (k < length flips)%nat ->
  nth k flips 0 * nth k flips 0 = 1.
Proof. intros Hf Hk. destruct (sign_sq flips k Hf); [assumption|lia]. Qed.

Lemma sign_cases flips k :
  Forall (fun v => v = 1 \/ v = -1) flips -> (k < length flips)%nat ->
  nth k flips 0 = 1 \/ nth k flips 0 = -1.
Proof.
  intros Hf Hk. rewrite Forall_forall in Hf. apply Hf, nth_In, Hk.
Qed.

Lemma ent_diag flips i k :
  (i < length flips)%nat -> (k < length flips)%nat ->
  ent (diag flips) i k = if Nat.eqb k i then nth i flips 0 else 0.
Proof.
  intros Hi Hk. unfold diag. rewrite ent_mk by assumption.
  rewrite Nat.eqb_sym. reflexivity.
Qed.

(** [F @ X] *)
Lemma mm_diag_l flips X :
  rows X = length flips -> mm (diag flips) X = flip_rows flips X.
Proof.
  intros Hr. unfold mm, flip_rows. rewrite Hr. apply mk_ext. intros i j Hi Hj.
  change (cols (diag flips)) with (length flips).
  rewrite (sum_ext _ _ (fun k => if Nat.eqb k i then nth k flips 0 * ent X k j else 0)).
  - apply sum_delta. assumption.
  - intros k Hk. rewrite ent_diag by assumption.
    destruct (Nat.eqb_spec k i); [subst; reflexivity | ring].
Qed.

(** [A @ F] *)
Lemma mm_diag_r flips A :
  cols A = length flips ->
  mm A (diag flips) = mk (rows A) (length flips) (fun i k => ent A i k * nth k flips 0).
Proof.
  intros Hc. unfold mm. apply mk_ext. intros i k Hi Hk. rewrite Hc.
  rewrite (sum_ext _ _ (fun l => if Nat.eqb l k then ent A i l * nth l flips 0 else 0)).
  - apply sum_delta. assumption.
  - intros l Hl. rewrite ent_diag by assumption. rewrite (Nat.eqb_sym k l).
    destruct (Nat.eqb_spec l k); [subst; rewrite ?Nat.eqb_refl; reflexivity | ring].
Qed.

Ltac shapes_in H := cbn [rows cols mk mm flip_rows diag gather_rows transpose] in H.

Lemma mm_flip_l flips X W : mm (flip_rows flips X) W = flip_rows flips (mm X W).
Proof.
  unfold mm at 1. unfold flip_rows at 2. apply mk_ext. intros i j Hi Hj.
  shapes_in Hi. shapes_in Hj.
  rewrite ent_mm by assumption. rewrite sum_mult_l.
  apply sum_ext. intros k Hk. unfold flip_rows. rewrite ent_mk by assumption. ring.
Qed.

(** [(F @ L @ F) @ (F @ X) = F @ (L @ X)] *)
Lemma mm_conj_flip flips L X :
  Forall (fun v => v = 1 \/ v = -1) flips ->
  rows L = length flips -> cols L = length flips -> rows X = length flips ->
  mm (mm (mm (diag flips) L) (diag flips)) (flip_rows flips X) = flip_rows flips (mm L X).
Proof.
  intros Hf Hr Hc HX.
  rewrite (mm_diag_l flips L Hr), (mm_diag_r flips (flip_rows flips L) Hc).
  unfold mm at 1. unfold flip_rows at 3. apply mk_ext. intros i j Hi Hj.
  shapes_in Hi. shapes_in Hj.
  rewrite ent_mm by assumption. rewrite sum_mult_l. cbn [cols mk]. rewrite Hc.
  apply sum_ext. intros k Hk.
  rewrite ent_mk by (cbn [rows flip_rows mk]; assumption).
  unfold flip_rows. rewrite !ent_mk by (rewrite ?Hc, ?HX; assumption).
  pose proof (sign_sq_lt flips k Hf Hk) as Hs.
  transitivity (nth i flips 0 * (ent L i k * ent X k j) * (nth k flips 0 * nth k flips 0));
    [ring | rewrite Hs; ring].
Qed.

(** [(B1_jax @ F)[idx] @ (F @ X) = B1_jax[idx] @ X] *)
Lemma mm_gather_flip flips Bj idx X :
  Forall (fun v => v = 1 \/ v = -1) flips ->
  cols Bj = length flips -> rows X = length flips -> (0 < rows Bj)%nat ->
  mm (gather_rows (mm Bj (diag flips)) idx) (flip_rows flips X) = mm (gather_rows Bj idx) X.
Proof.
  intros Hf Hc HX Hr.
  unfold mm at 1 3. apply mk_ext. intros i j Hi Hj.
  shapes_in Hi. shapes_in Hj. cbn [cols gather_rows mk mm diag]. rewrite Hc.
  apply sum_ext. intros k Hk.
  set (r := jax_clamp (rows (mm Bj (diag flips))) (nth i idx 0%Z)).
  assert (Hrr : (r < rows Bj)%nat).
  { subst r. unfold jax_clamp. cbn [rows mm mk].
    destruct (_ <? 0)%Z; [lia|]. destruct (_ <? _)%Z eqn:E; [|lia].
    apply Z.ltb_lt in E. lia. }
  unfold gather_rows. rewrite !ent_mk by (cbn [cols mm mk diag]; rewrite ?Hc; assumption).
  fold r. change (rows (mm Bj (diag flips))) with (rows Bj).
  rewrite mm_diag_r by assumption. rewrite ent_mk by assumption.
  unfold flip_rows. rewrite ent_mk by (rewrite ?HX; assumption).
  change (jax_clamp (rows Bj) (nth i idx 0%Z)) with r.
  pose proof (sign_sq_lt flips k Hf Hk) as Hs.
  transitivity (ent Bj r k * ent X k j * (nth k flips 0 * nth k flips 0));
    [ring | rewrite Hs; ring].
Qed.

Lemma tanh_opp x : tanh (- x) = - tanh x.
Proof.
  unfold tanh, sinh, cosh. rewrite Ropp_involutive.
  pose proof (exp_pos x). pose proof (exp_pos (- x)).
  field. lra.
Qed.

Lemma bidx_id d i : (i < d)%nat -> bidx d i = i.
Proof. unfold bidx. destruct (Nat.eqb_spec d 1); lia. Qed.

Lemma flip_ent_canon flips A i j :
  canon A -> ent (flip_rows flips A) i j = nth i flips 0 * ent A i j.
Proof.
  intros HA. rewrite (canon_ent A i j HA). unfold flip_rows, mk. cbn [ent].
  destruct (_ && _)%bool; ring.
Qed.

Lemma matmul_flip_l flips X W :
  matmul (flip_rows flips X) W = mmap (flip_rows flips) (matmul X W).
Proof.
  unfold matmul. change (cols (flip_rows flips X)) with (cols X).
  destruct (Nat.eqb (cols X) (rows W)); [|reflexivity].
  rewrite mm_flip_l. reflexivity.
Qed.

Lemma matmul_conj flips L X :
  Forall (fun v => v = 1 \/ v = -1) flips ->
  rows L = length flips -> cols L = length flips -> rows X = length flips ->
  matmul (mm (mm (diag flips) L) (diag flips)) (flip_rows flips X)
  = mmap (flip_rows flips) (matmul L X).
Proof.
  intros Hf Hr Hc HX. unfold matmul.
  change (cols (mm (mm (diag flips) L) (diag flips))) with (length flips).
  change (rows (flip_rows flips X)) with (rows X).
  rewrite Hc, HX, Nat.eqb_refl. rewrite mm_conj_flip by assumption. reflexivity.
Qed.

Lemma own_term_flip flips ws X k :
  own_term ws (flip_rows flips X) k = mmap (flip_rows flips) (own_term ws X k).
Proof.
  unfold own_term. rewrite mmap_bind. apply bind_ext_ok. intros. apply matmul_flip_l.
Qed.

Lemma shift_term_conj flips ws L X k :
  Forall (fun v => v = 1 \/ v = -1) flips ->
  rows L = length flips -> cols L = length flips -> rows X = length flips ->
  shift_term ws (mm (mm (diag flips) L) (diag flips)) (flip_rows flips X) k
  = mmap (flip_rows flips) (shift_term ws L X k).
Proof.
  intros Hf Hr Hc HX. unfold shift_term.
  rewrite matmul_conj by assumption. rewrite bind_mmap, mmap_bind.
  apply bind_ext_ok. intros. rewrite mmap_bind. apply bind_ext_ok. intros.
  apply matmul_flip_l.
Qed.

Lemma add_flip flips A B :
  rows A = rows B -> canon A -> canon B ->
  add (flip_rows flips A) (flip_rows flips B) = mmap (flip_rows flips) (add A B).
Proof.
  intros Hr HA HB. unfold add.
  change (rows (flip_rows flips A)) with (rows A). change (rows (flip_rows flips B)) with (rows B).
  change (cols (flip_rows flips A)) with (cols A). change (cols (flip_rows flips B)) with (cols B).
  rewrite <- Hr. unfold bdim at 1 3. rewrite Nat.eqb_refl.
  destruct (bdim (cols A) (cols B)) as [c|]; [|reflexivity].
  unfold ret, mmap. do 2 f_equal.
  unfold badd, flip_rows at 3. apply mk_ext. intros i j Hi Hj.
  change (rows (flip_rows flips A)) with (rows A). change (rows (flip_rows flips B)) with (rows B).
  change (cols (flip_rows flips A)) with (cols A). change (cols (flip_rows flips B)) with (cols B).
  rewrite ent_mk by assumption. rewrite <- Hr, !bidx_id by assumption.
  rewrite !flip_ent_canon by assumption. cbn [cols rows mk]. ring.
Qed.

Lemma tanh_flip flips X :
  (forall i, (i < rows X)%nat -> nth i flips 0 = 1 \/ nth i flips 0 = -1) ->
  tanh_m (flip_rows flips X) = flip_rows flips (tanh_m X).
Proof.
  intros Hs. unfold tanh_m, map_elem. unfold flip_rows at 2. apply mk_ext. intros i j Hi Hj.
  change (rows (flip_rows flips X)) with (rows X) in Hi.
  change (cols (flip_rows flips X)) with (cols X) in Hj.
  rewrite ent_mk by assumption. unfold flip_rows. rewrite ent_mk by assumption.
  destruct (Hs i Hi) as [-> | ->].
  - rewrite !Rmult_1_l. reflexivity.
  - replace (-1 * ent X i j) with (- ent X i j) by ring. rewrite tanh_opp. ring.
Qed.

Lemma own_term_ok ws X k l t :
  own_term ws X k = (l, Ok t) -> rows t = rows X /\ canon t.
Proof.
  unfold own_term. intros H. split_binds. count_steps. subst. split; [reflexivity|apply canon_mk].
Qed.

Lemma shift_term_ok ws S X k l t :
  shift_term ws S X k = (l, Ok t) -> rows t = rows S /\ canon t.
Proof.
  unfold shift_term. intros H. split_binds. count_steps. subst. split; [reflexivity|apply canon_mk].
Qed.

Lemma add_ok A B l C :
  rows A = rows B -> add A B = (l, Ok C) -> rows C = rows A /\ canon C.
Proof.
  intros Hr. unfold add. rewrite <- Hr. unfold bdim at 1. rewrite Nat.eqb_refl.
  destruct (bdim (cols A) (cols B)); unfold ret, raise; intros H; inversion H; subst.
  split; [reflexivity|apply canon_mk].
Qed.

Lemma scone_layer_flip flips ws L U i X :
  Forall (fun v => v = 1 \/ v = -1) flips ->
  rows L = length flips -> cols L = length flips ->
  rows U = length flips -> cols U = length flips -> rows X = length flips ->
  scone_layer ws (mm (mm (diag flips) L) (diag flips)) (mm (mm (diag flips) U) (diag flips))
    i (flip_rows flips X)
  = mmap (flip_rows flips) (scone_layer ws L U i X).
Proof.
  intros Hf HrL HcL HrU HcU HX. unfold scone_layer. cbv zeta.
  rewrite own_term_flip, bind_mmap, mmap_bind. apply bind_ext_ok. intros l0 t0 H0. cbv beta.
  apply own_term_ok in H0 as [R0 C0].
  rewrite shift_term_conj by assumption. rewrite bind_mmap, mmap_bind.
  apply bind_ext_ok. intros l1 t1 H1. cbv beta.
  apply shift_term_ok in H1 as [R1 C1].
  rewrite add_flip by (try congruence; assumption). rewrite bind_mmap, mmap_bind.
  apply bind_ext_ok. intros l2 s1 H2. cbv beta.
  apply add_ok in H2 as [R2 C2]; [|congruence].
  rewrite shift_term_conj by assumption. rewrite bind_mmap, mmap_bind.
  apply bind_ext_ok. intros l3 t2 H3. cbv beta.
  apply shift_term_ok in H3 as [R3 C3].
  rewrite add_flip by (try congruence; assumption). rewrite bind_mmap, mmap_bind.
  apply bind_ext_ok. intros l4 s2 H4. cbv beta.
  apply add_ok in H4 as [R4 C4]; [|congruence].
  rewrite mmap_ret. rewrite tanh_flip; [reflexivity|].
  intros k Hk. apply sign_cases; [assumption|congruence].
Qed.

Lemma scone_layer_rows ws L U i X l Y :
  rows L = rows X -> rows U = rows X ->
  scone_layer ws L U i X = (l, Ok Y) -> rows Y = rows X.
Proof.
  intros HL HU H. unfold scone_layer in H. cbv zeta in H. split_binds.
  repeat match goal with
  | H : own_term _ _ _ = (_, Ok _) |- _ => apply own_term_ok in H as [? _]
  | H : shift_term _ _ _ _ = (_, Ok _) |- _ => apply shift_term_ok in H as [? _]
  | H : ret _ = (_, Ok _) |- _ => apply ret_ok_inv in H as [_ <-]
  end.
  repeat match goal with
  | H : add _ _ = (_, Ok _) |- _ => apply add_ok in H as [? _]; [|congruence]
  end.
  unfold tanh_m, map_elem. cbn [rows mk]. congruence.
Qed.

Lemma for_range_from_inv {A} (P : A -> Prop) (body : nat -> A -> M A) :
  (forall i x l y, P x -> body i x = (l, Ok y) -> P y) ->
  forall n i x l y, P x -> for_range_from i n body x = (l, Ok y) -> P y.
Proof.
  intros Hb n. induction n as [|n IH]; intros i x l y Hx H; simpl in H.
  - apply ret_ok_inv in H. destruct H as [_ ->]. assumption.
  - split_binds. eapply IH; [eapply Hb; eassumption | eassumption].
Qed.

Lemma for_range_from_flip flips (P : mat -> Prop) (body body' : nat -> mat -> M mat) :
  (forall i X, P X -> body' i (flip_rows flips X) = mmap (flip_rows flips) (body i X)) ->
  (forall i X l Y, P X -> body i X = (l, Ok Y) -> P Y) ->
  forall n i X, P X ->
  for_range_from i n body' (flip_rows flips X) = mmap (flip_rows flips) (for_range_from i n body X).
Proof.
  intros Hc Hp n. induction n as [|n IH]; intros i X HX; simpl.
  - reflexivity.
  - rewrite Hc by assumption. rewrite bind_mmap, mmap_bind. apply bind_ext_ok.
    intros l Y HY. apply IH. eapply Hp; eassumption.
Qed.

Lemma readout_flip flips ws Bj idx X :
  Forall (fun v => v = 1 \/ v = -1) flips ->
  cols Bj = length flips -> rows X = length flips -> (0 < rows Bj)%nat ->
  readout ws (gather_rows (mm Bj (diag flips)) idx) (flip_rows flips X)
  = readout ws (gather_rows Bj idx) X.
Proof.
  intros Hf Hc HX Hr. unfold readout, matmul at 1 3.
  change (cols (gather_rows (mm Bj (diag flips)) idx)) with (length flips).
  change (cols (gather_rows Bj idx)) with (cols Bj).
  change (rows (flip_rows flips X)) with (rows X).
  rewrite Hc, HX, Nat.eqb_refl. rewrite mm_gather_flip by assumption. reflexivity.
Qed.

(** C1. Orientation-flip invariance of [scone_func]: with a diagonal sign
    matrix [F = diag flips], running [scone_func] on [F @ lower @ F],
    [F @ upper @ F], the selector built from [B1_jax @ F] and the flow
    [F @ flow] gives exactly the same outcome (log-probabilities, or the
    same error) as running it on [lower], [upper], [B1_jax] and [flow]. *)
Theorem scone_func_orientation_flip flips ws L U B1 nbrhoods last_node flow :
  Forall (fun v => v = 1 \/ v = -1) flips ->
  rows L = length flips -> cols L = length flips ->
  rows U = length flips -> cols U = length flips ->
  cols B1 = length flips -> rows flow = length flips ->
  scone_func ws (mm (mm (diag flips) L) (diag flips)) (mm (mm (diag flips) U) (diag flips))
    (Bconds_func nbrhoods (mm (append_zero_row B1) (diag flips))) last_node
    (mm (diag flips) flow)
  = scone_func ws L U (Bconds_func nbrhoods (append_zero_row B1)) last_node flow.
Proof.
  intros Hf HrL HcL HrU HcU HcB Hfl. unfold scone_func. cbv zeta.
  apply bind_ext_ok. intros l0 u0 _. cbv beta.
  rewrite (mm_diag_l flips flow Hfl). unfold for_range.
  rewrite (for_range_from_flip flips (fun X => rows X = length flips) (scone_layer ws L U) _).
  - rewrite bind_mmap. apply bind_ext_ok. intros l Y HY. cbv beta.
    unfold Bconds_func. apply readout_flip.
    + assumption.
    + cbn [cols append_zero_row mk]. assumption.
    + eapply (for_range_from_inv (fun X => rows X = length flips)); [| exact Hfl | exact HY].
      intros i x l' y Hx Hy. cbv beta in *. rewrite <- Hx. exact (scone_layer_rows ws L U i x l' y ltac:(congruence) ltac:(congruence) Hy).
    + cbn [rows append_zero_row mk]. lia.
  - intros i X HX. apply scone_layer_flip; assumption.
  - intros i X l' Y HX HY. cbv beta in *. rewrite <- HX. exact (scone_layer_rows ws L U i X l' Y ltac:(congruence) ltac:(congruence) HY).
  - exact Hfl.
Qed.

Lemma scone_func_orientation_flip_witness :
  Forall (fun v => v = 1 \/ v = -1) [1; -1] /\
  scone_func (repeat (scalar_mat 1) 4)
    (mm (mm (diag [1; -1]) (mk 2 2 (fun _ _ => 1))) (diag [1; -1]))
    (mm (mm (diag [1; -1]) (mk 2 2 (fun i j => if Nat.eqb i j then 1 else 0))) (diag [1; -1]))
    (Bconds_func [[0%Z; (-1)%Z]] (mm (append_zero_row (mk 1 2 (fun _ _ => 1))) (diag [1; -1])))
    0%Z (mm (diag [1; -1]) (mk 2 1 (fun i _ => INR i)))
  = scone_func (repeat (scalar_mat 1) 4) (mk 2 2 (fun _ _ => 1))
    (mk 2 2 (fun i j => if Nat.eqb i j then 1 else 0))
    (Bconds_func [[0%Z; (-1)%Z]] (append_zero_row (mk 1 2 (fun _ _ => 1))))
    0%Z (mk 2 1 (fun i _ => INR i)).
Proof.
  assert (Hf : Forall (fun v => v = 1 \/ v = -1) [1; -1]).
  { constructor; [left; reflexivity|constructor; [right; reflexivity|constructor]]. }
  split; [exact Hf|].
  apply (scone_func_orientation_flip [1; -1] (repeat (scalar_mat 1) 4)
           (mk 2 2 (fun _ _ => 1)) (mk 2 2 (fun i j => if Nat.eqb i j then 1 else 0))
           (mk 1 2 (fun _ _ => 1)) [[0%Z; (-1)%Z]] 0%Z (mk 2 1 (fun i _ => INR i)));
    [exact Hf | reflexivity ..].
Defined.

(** ** The conditional-incidence selector *)

Lemma sum_zero n : sum n (fun _ => 0) = 0.
Proof. induction n as [|n IH]; simpl; [reflexivity|rewrite IH; ring]. Qed.

Lemma sort_length l : length (NatSort.sort l) = length l.
Proof. symmetry. apply Permutation_length, NatSort.Permuted_sort. Qed.

Lemma sort_in l v : In v (NatSort.sort l) -> In v l.
Proof. intros H. eapply Permutation_in; [symmetry; apply NatSort.Permuted_sort|exact H]. Qed.

Lemma degree_le_max adj n :
  (n < length adj)%nat -> (length (nth n adj []) <= max_degree adj)%nat.
Proof.
  revert n. induction adj as [|a adj IH]; intros n Hn; simpl in Hn; [lia|].
  unfold max_degree. simpl. destruct n as [|n]; simpl; [lia|].
  specialize (IH n ltac:(lia)). unfold max_degree in IH. lia.
Qed.

Lemma padded_nbrs_length adj n :
  (n < length adj)%nat -> length (padded_nbrs adj n) = max_degree adj.
Proof.
  intros Hn. unfold padded_nbrs. rewrite length_app, length_map, repeat_length, sort_length.
  pose proof (degree_le_max adj n Hn). lia.
Qed.

Lemma nth_repeat_lt {A} (a d : A) m j : (j < m)%nat -> nth j (repeat a m) d = a.
Proof. revert j. induction m as [|m IH]; intros [|j] Hj; simpl; try lia; auto with arith. Qed.

(** Each slot of a padded list holds a neighbour or the sentinel [-1]. *)
Lemma padded_nbrs_slot adj n j :
  (n < length adj)%nat -> (j < max_degree adj)%nat ->
  (exists v, nth j (padded_nbrs adj n) 0%Z = Z.of_nat v /\ In v (nth n adj []))
  \/ nth j (padded_nbrs adj n) 0%Z = (-1)%Z.
Proof.
  intros Hn Hj. unfold padded_nbrs.
  destruct (Nat.ltb_spec j (length (map Z.of_nat (NatSort.sort (nth n adj []))))) as [Hl|Hl].
  - left. rewrite app_nth1 by assumption. rewrite length_map in Hl.
    exists (nth j (NatSort.sort (nth n adj [])) 0%nat). split.
    + change 0%Z with (Z.of_nat 0). apply map_nth.
    + apply sort_in, nth_In. assumption.
  - right. rewrite app_nth2 by assumption. apply nth_repeat_lt.
    rewrite length_map, sort_length in *. pose proof (degree_le_max adj n Hn). lia.
Qed.

Lemma jax_clamp_nat r v : (v < r)%nat -> jax_clamp r (Z.of_nat v) = v.
Proof.
  intros Hv. unfold jax_clamp, py_norm.
  destruct (Z.ltb_spec (Z.of_nat v) 0); [lia|].
  destruct (Z.ltb_spec (Z.of_nat v) 0); [lia|].
  destruct (Z.ltb_spec (Z.of_nat v) (Z.of_nat r)); [lia|lia].
Qed.

Lemma jax_clamp_sentinel r : jax_clamp (S r) (-1)%Z = r.
Proof.
  unfold jax_clamp, py_norm. rewrite Nat2Z.inj_succ.
  destruct (Z.ltb_spec (-1) 0); [|lia].
  destruct (Z.ltb_spec (-1 + Z.succ (Z.of_nat r)) 0); [lia|].
  destruct (Z.ltb_spec (-1 + Z.succ (Z.of_nat r)) (Z.succ (Z.of_nat r))); lia.
Qed.

Lemma B1_jax_rows flip_edges flips B1 : rows (B1_jax_of flip_edges flips B1) = S (rows B1).
Proof. destruct flip_edges; reflexivity. Qed.

Lemma B1_jax_last_row flip_edges flips B1 c : ent (B1_jax_of flip_edges flips B1) (rows B1) c = 0.
Proof.
  assert (Hz : forall k, ent (append_zero_row B1) (rows B1) k = 0).
  { intros k. cbn [ent append_zero_row mk]. rewrite Nat.ltb_irrefl.
    destruct (_ && _)%bool; reflexivity. }
  destruct flip_edges; [|apply Hz].
  unfold B1_jax_of, mm. cbn [ent mk]. destruct (_ && _)%bool; [|reflexivity].
  rewrite (sum_ext _ _ (fun _ => 0)); [apply sum_zero|].
  intros k _. rewrite Hz. ring.
Qed.

Lemma nbrs_below adj r m v :
  forallb (forallb (fun v => Nat.ltb v r)) adj = true -> In v (nth m adj []) -> (v < r)%nat.
Proof.
  intros Hall Hin. rewrite forallb_forall in Hall.
  destruct (Nat.ltb_spec m (length adj)) as [Hm|Hm].
  - specialize (Hall _ (nth_In adj [] Hm)). rewrite forallb_forall in Hall.
    apply Nat.ltb_lt, Hall, Hin.
  - rewrite nth_overflow in Hin by assumption. destruct Hin.
Qed.

(** C6. For every node [n] of the graph whose neighbours are all rows of
    [B1], with [B1_jax] the bias-augmented matrix built by [data_setup]
    (one zero row appended to [B1], then [@ F] when flipping):
    [B1_jax] has exactly one more row than [B1] and that row is zero; the
    padded neighbour list [nbrhoods[n]] and the selector [Bconds_func(n)]
    have [max_degree] entries and rows; every slot of [nbrhoods[n]] is a
    neighbour or the sentinel [-1]; row [j] of [Bconds_func(n)] is the row
    of [B1_jax] indexed by slot [j], and it is zero for a sentinel slot. *)
Theorem Bconds_func_selects_rows flip_edges flips adj B1 n :
  (n < length adj)%nat ->
  forallb (forallb (fun v => Nat.ltb v (rows B1))) adj = true ->
  let Bj := B1_jax_of flip_edges flips B1 in
  let Nv := nth n (nbrhoods_of adj) [] in
  let Bc := Bconds_func (nbrhoods_of adj) Bj (Z.of_nat n) in
  rows Bj = S (rows B1) /\ (forall c, ent Bj (rows B1) c = 0) /\
  length Nv = max_degree adj /\
  rows Bc = max_degree adj /\ cols Bc = cols Bj /\
  (forall j c, (j < max_degree adj)%nat -> (c < cols Bj)%nat ->
     ((0 <= nth j Nv 0)%Z -> ent Bc j c = ent Bj (Z.to_nat (nth j Nv 0%Z)) c) /\
     (nth j Nv 0%Z = (-1)%Z -> ent Bc j c = 0) /\
     ((exists v, nth j Nv 0%Z = Z.of_nat v /\ In v (nth n adj [])) \/ nth j Nv 0%Z = (-1)%Z)).
Proof.
  intros Hn Hall Bj Nv Bc.
  assert (HNv : Nv = padded_nbrs adj n).
  { unfold Nv, nbrhoods_of. apply nth_map_seq. assumption. }
  assert (HBc : Bc = gather_rows Bj Nv).
  { unfold Bc, Bconds_func, jax_row. rewrite jax_clamp_nat; [reflexivity|].
    unfold nbrhoods_of. rewrite length_map, length_seq. assumption. }
  assert (HL : length Nv = max_degree adj).
  { rewrite HNv. apply padded_nbrs_length. assumption. }
  split; [apply B1_jax_rows|]. split; [apply B1_jax_last_row|].
  split; [exact HL|]. rewrite HBc. split; [exact HL|]. split; [reflexivity|].
  intros j c Hj Hc. unfold gather_rows. rewrite ent_mk by lia.
  destruct (padded_nbrs_slot adj n j Hn Hj) as [[v [Hev Hin]] | He]; rewrite <- HNv in *.
  - split; [|split].
    + intros _. rewrite Hev, Nat2Z.id. rewrite jax_clamp_nat; [reflexivity|].
      unfold Bj. rewrite B1_jax_rows. pose proof (nbrs_below adj (rows B1) n v Hall Hin). lia.
    + intros H. rewrite Hev in H. lia.
    + left. exists v. split; assumption.
  - split; [|split].
    + intros H. rewrite He in H. lia.
    + intros _. rewrite He. unfold Bj. rewrite B1_jax_rows, jax_clamp_sentinel. apply B1_jax_last_row.
    + right. assumption.
Qed.

Lemma Bconds_func_selects_rows_witness :
  (0 < length [[1%nat]; [0%nat]])%nat /\
  forallb (forallb (fun v => Nat.ltb v (rows (mk 2 1 (fun _ _ => 1))))) [[1%nat]; [0%nat]] = true /\
  rows (Bconds_func (nbrhoods_of [[1%nat]; [0%nat]])
          (B1_jax_of false [] (mk 2 1 (fun _ _ => 1))) (Z.of_nat 0)) = max_degree [[1%nat]; [0%nat]].
Proof.
  assert (H1 : (0 < length [[1%nat]; [0%nat]])%nat) by (simpl; lia).
  assert (H2 : forallb (forallb (fun v => Nat.ltb v (rows (mk 2 1 (fun _ _ => 1))))) [[1%nat]; [0%nat]] = true)
    by reflexivity.
  split; [exact H1|]. split; [exact H2|].
  exact (proj1 (proj2 (proj2 (proj2 (Bconds_func_selects_rows false [] [[1%nat]; [0%nat]]
                                        (mk 2 1 (fun _ _ => 1)) 0 H1 H2))))).
Defined.

(** ** Log-probabilities *)

Lemma mm_zero_row P Q i :
  (forall k, ent P i k = 0) -> forall j, ent (mm P Q) i j = 0.
Proof.
  intros Hz j. unfold mm. cbn [ent mk]. destruct (_ && _)%bool; [|reflexivity].
  rewrite (sum_ext _ _ (fun _ => 0)); [apply sum_zero|]. intros k _. rewrite Hz. ring.
Qed.

Lemma exp_total_pos A : (0 < rows A)%nat -> (0 < cols A)%nat -> 0 < exp_total A.
Proof.
  intros Hr Hc. unfold exp_total. apply sum_pos; [assumption|].
  intros i _. apply sum_pos; [assumption|]. intros j _. apply exp_pos.
Qed.

Lemma log_softmax_total A :
  (0 < rows A)%nat -> (0 < cols A)%nat -> exp_total (log_softmax A) = 1.
Proof.
  intros Hr Hc. pose proof (exp_total_pos A Hr Hc) as Hp.
  unfold exp_total at 1. unfold log_softmax, map_elem. cbn [rows cols mk].
  rewrite (sum_ext _ _ (fun i => sum (cols A) (fun j => exp (ent A i j)) * / exp_total A)).
  - rewrite <- sum_mult_r. fold (exp_total A). field. lra.
  - intros i Hi. rewrite sum_mult_r. apply sum_ext. intros j Hj.
    rewrite ent_mk by assumption. unfold logsumexp. fold (exp_total A).
    unfold Rminus. rewrite exp_plus, exp_Ropp, exp_ln by assumption. reflexivity.
Qed.

Lemma readout_output ws Bc X l o :
  readout ws Bc X = (l, Ok o) ->
  exists logits, o = log_softmax logits /\ rows logits = rows Bc /\
    (forall i j, (forall k, ent Bc i k = 0) -> ent logits i j = 0).
Proof.
  unfold readout. intros H.
  apply bind_ok_inv in H as (l1 & b & l2 & Hb & H & _). cbv beta in H.
  apply bind_ok_inv in H as (l3 & w & l4 & _ & H & _). cbv beta in H.
  apply bind_ok_inv in H as (l5 & lg & l6 & Hl & H & _). cbv beta in H.
  apply ret_ok_inv in H as [_ <-].
  apply matmul_ok_inv in Hb as (_ & _ & ->). apply matmul_ok_inv in Hl as (_ & _ & ->).
  exists (mm (mm Bc X) w). split; [reflexivity|]. split; [reflexivity|].
  intros i j Hz. apply mm_zero_row. intros k. apply mm_zero_row. exact Hz.
Qed.

Lemma softmax_run_of (run : M mat) :
  (forall l o, run = (l, Ok o) -> exists A, o = log_softmax A) -> softmax_run run.
Proof.
  intros H l o Hrun Hr Hc. destruct (H l o Hrun) as [A ->].
  apply log_softmax_total; assumption.
Qed.

Lemma selector_softmax_of_readout ws Bc (run : M mat) :
  (forall l o, run = (l, Ok o) -> exists l' X, readout ws Bc X = (l', Ok o)) ->
  selector_softmax Bc run.
Proof.
  intros H. split.
  - apply softmax_run_of. intros l o Hrun. destruct (H l o Hrun) as (l' & X & HX).
    destruct (readout_output ws Bc X l' o HX) as (A & -> & _). exists A. reflexivity.
  - intros l o Hrun. destruct (H l o Hrun) as (l' & X & HX).
    exact (readout_output ws Bc X l' o HX).
Qed.

Ltac ends_in_readout f :=
  eapply selector_softmax_of_readout;
  let l := fresh "l" in let o := fresh "o" in let H := fresh "H" in
  intros l o H; unfold f in H; cbv zeta in H; split_binds; eauto.

Lemma scone_func_output ws L U Bf n flow :
  selector_softmax (Bf n) (scone_func ws L U Bf n flow).
Proof. ends_in_readout scone_func. Qed.

Lemma scnn_func_2_output ws S1 S2 U1 U2 Bf n flow k1 k2 :
  selector_softmax (Bf n) (scnn_func_2 ws S1 S2 U1 U2 Bf n flow k1 k2).
Proof. ends_in_readout scnn_func_2. Qed.

Lemma scnn_func_3_output ws S1 S2 S3 U1 U2 U3 Bf n flow k1 k2 :
  selector_softmax (Bf n) (scnn_func_3 ws S1 S2 S3 U1 U2 U3 Bf n flow k1 k2).
Proof. ends_in_readout scnn_func_3. Qed.

Lemma scnn_func_4_output ws S1 S2 S3 S4 U1 U2 U3 U4 Bf n flow k1 k2 :
  selector_softmax (Bf n) (scnn_func_4 ws S1 S2 S3 S4 U1 U2 U3 U4 Bf n flow k1 k2).
Proof. ends_in_readout scnn_func_4. Qed.

Lemma ebli_func_output ws S S2 S3 Bf n flow :
  selector_softmax (Bf n) (ebli_func ws S S2 S3 Bf n flow).
Proof. ends_in_readout ebli_func. Qed.

Lemma bunch_func_output ws S00 S10 S01 S11 S21 S12 S22 nbrhoods n flow :
  softmax_run (bunch_func ws S00 S10 S01 S11 S21 S12 S22 nbrhoods n flow).
Proof.
  apply softmax_run_of. intros l o H. unfold bunch_func in H. cbv zeta in H. split_binds.
  match goal with a : (mat * mat * mat)%type |- _ => destruct a as [[x y] z] end.
  apply ret_ok_inv in H2 as [_ <-]. eexists. reflexivity.
Qed.

(** C5 (counterexample). On the path graph [0 - 1 - 2] node 0 has one
    neighbour and [max_degree] is 2, so [nbrhoods[0] = [1, -1]]: slot 0 is
    the neighbour 1 and slot 1 is padding.  A successful [scone_func] pass
    on the operators [data_setup] builds for this graph ([lower = B1.T @ B1],
    [upper = 0], there being no triangle) gives the one valid slot a
    probability [exp(o[0]) < 1]: the padding slot carries mass. *)
Lemma valid_slots_mass_counterexample :
  nbrhoods_of path3_adj = [[1%Z; (-1)%Z]; [0%Z; 2%Z]; [1%Z; (-1)%Z]] /\
  exists l o,
    scone_func (repeat (scalar_mat 1) 4) (mm (transpose path3_B1) path3_B1) (zeros 2 2)
      (Bconds_func (nbrhoods_of path3_adj) (B1_jax_of false [] path3_B1)) 0%Z
      (mk 2 1 (fun _ _ => 1)) = (l, Ok o) /\
    rows o = 2%nat /\ cols o = 1%nat /\ exp (ent o 0 0) < 1 /\ 0 < exp (ent o 1 0).
Proof.
  split; [reflexivity|].
  assert (Hrun : exists l o,
    scone_func (repeat (scalar_mat 1) 4) (mm (transpose path3_B1) path3_B1) (zeros 2 2)
      (Bconds_func (nbrhoods_of path3_adj) (B1_jax_of false [] path3_B1)) 0%Z
      (mk 2 1 (fun _ _ => 1)) = (l, Ok o)).
  { eexists; eexists; run_concrete; reflexivity. }
  destruct Hrun as (l & o & Hrun). exists l, o.
  assert (Hshape : rows o = 2%nat /\ cols o = 1%nat).
  { pose proof Hrun as Hc. lazy -[Rplus Rmult Rminus Rdiv Rinv Ropp IZR tanh exp ln Rmax] in Hc. injection Hc as Hl Ho. subst o. split; reflexivity. }
  destruct Hshape as [Hr Hc].
  pose proof (proj1 (scone_func_output _ _ _ _ _ _) l o Hrun ltac:(lia) ltac:(lia)) as Htot.
  unfold exp_total in Htot. rewrite Hr, Hc in Htot. cbn [sum] in Htot.
  pose proof (exp_pos (ent o 0 0)). pose proof (exp_pos (ent o 1 0)).
  split; [exact Hrun|]. split; [exact Hr|]. split; [exact Hc|]. split; lra.
Qed.

(** C5 (amended). Every forward pass returns [logits - logsumexp(logits)]
    over all of its slots, padding slots included: a successful nonempty
    output sums to 1 after exponentiation over all slots.  Padding slots are
    not masked: for the five families that read out through the selector
    [Bcond_func(last_node)], the logits have one row per selector row and a
    zero selector row (a padding slot) has logit 0, so it carries positive
    probability and the valid slots alone sum to less than 1. *)
Theorem log_probs_cover_all_slots :
  (forall ws L U Bf n flow, selector_softmax (Bf n) (scone_func ws L U Bf n flow)) /\
  (forall ws S1 S2 U1 U2 Bf n flow k1 k2,
     selector_softmax (Bf n) (scnn_func_2 ws S1 S2 U1 U2 Bf n flow k1 k2)) /\
  (forall ws S1 S2 S3 U1 U2 U3 Bf n flow k1 k2,
     selector_softmax (Bf n) (scnn_func_3 ws S1 S2 S3 U1 U2 U3 Bf n flow k1 k2)) /\
  (forall ws S1 S2 S3 S4 U1 U2 U3 U4 Bf n flow k1 k2,
     selector_softmax (Bf n) (scnn_func_4 ws S1 S2 S3 S4 U1 U2 U3 U4 Bf n flow k1 k2)) /\
  (forall ws S S2 S3 Bf n flow, selector_softmax (Bf n) (ebli_func ws S S2 S3 Bf n flow)) /\
  (forall ws S00 S10 S01 S11 S21 S12 S22 nbrhoods n flow,
     softmax_run (bunch_func ws S00 S10 S01 S11 S21 S12 S22 nbrhoods n flow)).
Proof.
  split; [exact scone_func_output|]. split; [exact scnn_func_2_output|].
  split; [exact scnn_func_3_output|]. split; [exact scnn_func_4_output|].
  split; [exact ebli_func_output|]. exact bunch_func_output.
Qed.

(** ** The shift operators *)

Lemma seed1_signs_14 :
  seed1_signs 14 = repeat true 13 ++ [false].
Proof. vm_compute. reflexivity. Qed.

Lemma random_sample53_length n st : length (random_sample53 n st) = n.
Proof.
  revert st. induction n as [|n IH]; intros st; [reflexivity|].
  cbn [random_sample53]. destruct (next_double53 st) as [k st']. cbn [length]. rewrite IH. reflexivity.
Qed.

Lemma seed1_flips_length n : length (seed1_flips n) = n.
Proof. unfold seed1_flips, seed1_signs. rewrite !length_map. apply random_sample53_length. Qed.

Lemma mm_chk_ok e A B : cols A = rows B -> mm_chk e A B = Ok (mm A B).
Proof. intros H. unfold mm_chk. rewrite H, Nat.eqb_refl. reflexivity. Qed.

Lemma badd_same r c A B :
  rows A = r -> cols A = c -> rows B = r -> cols B = c -> badd r c A B = madd A B.
Proof.
  intros HrA HcA HrB HcB. subst r c. unfold badd, madd. apply mk_ext. intros i j Hi Hj.
  unfold bidx. rewrite HrB, HcB.
  destruct (Nat.eqb_spec (rows A) 1) as [Er|Er]; destruct (Nat.eqb_spec (cols A) 1) as [Ec|Ec];
    try (replace i with 0%nat by lia); try (replace j with 0%nat by lia); reflexivity.
Qed.

(** [(F @ L @ F)[i, j] = flips[i] * L[i, j] * flips[j]] *)
Lemma ent_conj flips L i j :
  rows L = length flips -> cols L = length flips ->
  (i < length flips)%nat -> (j < length flips)%nat ->
  ent (mm (mm (diag flips) L) (diag flips)) i j = nth i flips 0 * ent L i j * nth j flips 0.
Proof.
  intros Hr Hc Hi Hj. rewrite (mm_diag_l flips L Hr).
  rewrite (mm_diag_r flips (flip_rows flips L)) by exact Hc.
  cbn [rows flip_rows mk]. rewrite ent_mk by lia. unfold flip_rows. rewrite ent_mk by lia. ring.
Qed.

Lemma path_B1_lower_12_13 :
  ent (mm (transpose (path_B1 14)) (path_B1 14)) 12 13 = -1.
Proof. run_concrete. ring. Qed.

(** C4 (counterexample). The path [0 - 1 - ... - 14] has 14 edges, and the
    seed-1 draw flips exactly the last one: [flips = [1] * 13 + [-1]].  With
    [flip_edges] set, the first operator [data_setup] builds for the base
    model from its incidence matrix (no triangle) has entry [1] at
    [(12, 13)], while [B1.T @ B1] has [-1] there: the list is not
    [[B1.T @ B1, B2 @ B2.T]]. *)
Lemma shift_table_flip_counterexample :
  seed1_flips 14 = repeat 1 13 ++ [-1] /\
  exists shifts,
    data_setup_shifts "scone" true 14 (fun _ _ => []) (path_B1 14) (zeros 14 0) = Ok shifts /\
    ent (nth 0 shifts (zeros 0 0)) 12 13 = 1 /\
    ent (mm (transpose (path_B1 14)) (path_B1 14)) 12 13 = -1.
Proof.
  assert (Hf : seed1_flips 14 = repeat 1 13 ++ [-1])
    by (unfold seed1_flips; rewrite seed1_signs_14; reflexivity).
  split; [exact Hf|].
  set (L := mm (transpose (path_B1 14)) (path_B1 14)).
  set (U := mm (zeros 14 0) (transpose (zeros 14 0))).
  set (F := diag (seed1_flips 14)).
  assert (HF : length (seed1_flips 14) = 14%nat) by apply seed1_flips_length.
  eexists. split.
  - unfold data_setup_shifts, base_shifts. fold L U. cbv zeta. fold F.
    rewrite (mm_chk_ok _ F L) by (unfold F, L; cbn [cols rows diag mk mm transpose path_B1]; exact HF).
    cbn [res_bind].
    rewrite (mm_chk_ok _ (mm F L) F) by (unfold F, L; cbn [cols rows diag mk mm transpose path_B1]; lia).
    cbn [res_bind].
    rewrite (mm_chk_ok _ F U) by (unfold F, U; cbn [cols rows diag mk mm transpose zeros]; lia).
    cbn [res_bind].
    rewrite (mm_chk_ok _ (mm F U) F) by (unfold F, U; cbn [cols rows diag mk mm transpose zeros]; lia).
    cbn [res_bind]. reflexivity.
  - split; [|exact path_B1_lower_12_13].
    cbn [nth]. unfold F. rewrite ent_conj by (unfold L; cbn [rows cols mk mm transpose path_B1]; lia).
    unfold L. rewrite path_B1_lower_12_13, Hf. cbn [nth repeat app]. ring.
Qed.

(** C4 (amended). For boundary matrices of one complex ([B2] has one row per
    column of [B1]) and, with [flip_edges] set, a graph with one edge per
    column of [B1]: [data_setup] builds [lower = B1.T @ B1] and
    [upper = B2 @ B2.T], conjugated to [F @ lower @ F] and [F @ upper @ F]
    with [F = diag(flips)] of the seed-1 flips when [flip_edges] is set, and
    returns exactly the list of the table for each model, with powers by
    repeated left-to-right products; the bunch model gets
    [compute_shift_matrices(B1, B2)] and any other model string raises. *)
Theorem shift_table_by_model (flip_edges : bool) (n_edges : nat) (csm : mat -> mat -> list mat)
    (B1 B2 : mat) (Hsq : rows B2 = cols B1) (Hn : flip_edges = true -> n_edges = cols B1) :
  let F := diag (seed1_flips n_edges) in
  let lower := if flip_edges then mm (mm F (mm (transpose B1) B1)) F else mm (transpose B1) B1 in
  let upper := if flip_edges then mm (mm F (mm B2 (transpose B2))) F else mm B2 (transpose B2) in
  let L := madd lower upper in
  data_setup_shifts "scone" flip_edges n_edges csm B1 B2 = Ok [lower; upper] /\
  data_setup_shifts "scnn2" flip_edges n_edges csm B1 B2
    = Ok [lower; mm lower lower; upper; mm upper upper] /\
  data_setup_shifts "scnn3" flip_edges n_edges csm B1 B2
    = Ok [lower; mm lower lower; mm (mm lower lower) lower;
          upper; mm upper upper; mm (mm upper upper) upper] /\
  data_setup_shifts "scnn4" flip_edges n_edges csm B1 B2
    = Ok [lower; mm lower lower; mm (mm lower lower) lower; mm (mm (mm lower lower) lower) lower;
          upper; mm upper upper; mm (mm upper upper) upper; mm (mm (mm upper upper) upper) upper] /\
  data_setup_shifts "ebli" flip_edges n_edges csm B1 B2 = Ok [L; mm L L; mm (mm L L) L] /\
  data_setup_shifts "bunch" flip_edges n_edges csm B1 B2 = Ok (csm B1 B2) /\
  (forall model, ~ In model ["scone"; "scnn2"; "scnn3"; "scnn4"; "ebli"; "bunch"]%string ->
     data_setup_shifts model flip_edges n_edges csm B1 B2 = Err Exception).
Proof.
  intros F lower upper L.
  assert (HF : length (seed1_flips n_edges) = n_edges) by apply seed1_flips_length.
  assert (Hb : base_shifts flip_edges n_edges B1 B2 = Ok (lower, upper)).
  { unfold base_shifts, lower, upper. cbv zeta. fold F.
    destruct flip_edges; [|reflexivity].
    specialize (Hn eq_refl).
    rewrite mm_chk_ok by (unfold F; cbn [cols rows diag mk mm transpose]; lia). cbn [res_bind].
    rewrite mm_chk_ok by (unfold F; cbn [cols rows diag mk mm transpose]; lia). cbn [res_bind].
    rewrite mm_chk_ok by (unfold F; cbn [cols rows diag mk mm transpose]; lia). cbn [res_bind].
    rewrite mm_chk_ok by (unfold F; cbn [cols rows diag mk mm transpose]; lia). reflexivity. }
  assert (Hshape : rows lower = cols B1 /\ cols lower = cols B1 /\
                   rows upper = cols B1 /\ cols upper = cols B1).
  { unfold lower, upper, F. destruct flip_edges;
      [specialize (Hn eq_refl)|]; cbn [rows cols mm mk diag transpose]; lia. }
  destruct Hshape as (H1 & H2 & H3 & H4).
  unfold data_setup_shifts. rewrite Hb. cbn [res_bind].
  split; [reflexivity|]. split; [reflexivity|]. split; [reflexivity|].
  split; [reflexivity|].
  split.
  { cbn [String.eqb Ascii.eqb Bool.eqb]. unfold add_chk. rewrite H1, H2, H3, H4.
    unfold bdim. rewrite Nat.eqb_refl. cbn [res_bind].
    rewrite (badd_same (cols B1) (cols B1) lower upper) by assumption. reflexivity. }
  split; [reflexivity|].
  intros model Hm.
  repeat match goal with
  | |- context [String.eqb model ?s] =>
      destruct (String.eqb_spec model s); [subst; exfalso; apply Hm; simpl; tauto|]
  end.
  reflexivity.
Qed.

Lemma shift_table_by_model_witness :
  rows (zeros 1 0) = cols (zeros 2 1) /\ (true = true -> 1%nat = cols (zeros 2 1)) /\
  exists shifts, data_setup_shifts "scone" true 1 (fun _ _ => []) (zeros 2 1) (zeros 1 0) = Ok shifts.
Proof.
  split; [reflexivity|]. split; [intros _; reflexivity|].
  eexists.
  exact (proj1 (shift_table_by_model true 1 (fun _ _ => []) (zeros 2 1) (zeros 1 0)
                  eq_refl (fun _ => eq_refl))).
Defined.

(** * Further properties of the forward passes *)

(** ** [logits - logsumexp(logits)] *)

Lemma rows_mk r c g : rows (mk r c g) = r.
Proof. reflexivity. Qed.

Lemma cols_mk r c g : cols (mk r c g) = c.
Proof. reflexivity. Qed.

Lemma sum_const n c : sum n (fun _ => c) = INR n * c.
Proof.
  induction n as [|n IH]; simpl sum; [simpl; ring|]. rewrite IH, S_INR. ring.
Qed.

Lemma sum_ge_term n g k :
  (k < n)%nat -> (forall m, (m < n)%nat -> 0 <= g m) -> g k <= sum n g.
Proof.
  induction n as [|n IH]; intros Hk Hg; [lia|]. simpl.
  destruct (Nat.eq_dec k n) as [->|Hne].
  - pose proof (sum_nonneg n g (fun m Hm => Hg m ltac:(lia))). lra.
  - pose proof (IH ltac:(lia) (fun m Hm => Hg m ltac:(lia))). pose proof (Hg n ltac:(lia)). lra.
Qed.

Lemma log_softmax_nonpos A i j :
  (i < rows A)%nat -> (j < cols A)%nat -> ent (log_softmax A) i j <= 0.
Proof.
  intros Hi Hj. unfold log_softmax, map_elem. rewrite ent_mk by assumption.
  unfold logsumexp. fold (exp_total A).
  assert (Hle : exp (ent A i j) <= exp_total A).
  { unfold exp_total.
    apply Rle_trans with (sum (cols A) (fun j => exp (ent A i j))).
    - apply (sum_ge_term _ (fun j => exp (ent A i j))); [assumption|].
      intros m _. left. apply exp_pos.
    - apply (sum_ge_term _ (fun i => sum (cols A) (fun j => exp (ent A i j)))); [assumption|].
      intros m _. apply sum_nonneg. intros k _. left. apply exp_pos. }
  destruct Hle as [Hlt|Heq].
  - pose proof (ln_increasing _ _ (exp_pos (ent A i j)) Hlt) as Hln. rewrite ln_exp in Hln. lra.
  - rewrite <- Heq, ln_exp. lra.
Qed.

Lemma logsumexp_shift A c :
  (0 < rows A)%nat -> (0 < cols A)%nat ->
  logsumexp (map_elem (fun v => v + c) A) = logsumexp A + c.
Proof.
  intros Hr Hc. unfold logsumexp, map_elem. rewrite rows_mk, cols_mk.
  rewrite (sum_ext _ _ (fun i => sum (cols A) (fun j => exp (ent A i j)) * exp c)).
  - rewrite <- sum_mult_r. fold (exp_total A).
    rewrite ln_mult by (apply exp_total_pos || apply exp_pos; assumption).
    rewrite ln_exp. reflexivity.
  - intros i Hi. rewrite sum_mult_r. apply sum_ext. intros j Hj.
    rewrite ent_mk by assumption. apply exp_plus.
Qed.

Lemma log_softmax_zero A :
  zero_mat A -> forall i j, (i < rows A)%nat -> (j < cols A)%nat ->
  ent (log_softmax A) i j = - ln (INR (rows A * cols A)).
Proof.
  intros HA i j Hi Hj. unfold log_softmax, map_elem. rewrite ent_mk by assumption.
  rewrite HA. unfold logsumexp.
  rewrite (sum_ext _ _ (fun _ => INR (cols A))).
  - rewrite sum_const, mult_INR. ring.
  - intros k _. rewrite (sum_ext _ _ (fun _ => 1)).
    + rewrite sum_const. ring.
    + intros m _. rewrite HA. apply exp_0.
Qed.

(** X1. Adding a constant to every logit does not change
    [logits - logsumexp(logits)]. *)
Theorem log_softmax_shift_invariant A c :
  log_softmax (map_elem (fun v => v + c) A) = log_softmax A.
Proof.
  set (B := map_elem (fun v => v + c) A). unfold log_softmax.
  change (mk (rows A) (cols A) (fun i j => ent B i j - logsumexp B)
          = mk (rows A) (cols A) (fun i j => ent A i j - logsumexp A)).
  apply mk_ext. intros i j Hi Hj. unfold B at 1. unfold map_elem. rewrite ent_mk by assumption.
  unfold B. rewrite logsumexp_shift by lia. ring.
Qed.

(** ** Zero signals *)

Lemma mm_zero_l X W : zero_mat X -> zero_mat (mm X W).
Proof.
  intros HX i j. unfold mm. cbn [ent mk]. destruct (_ && _)%bool; [|reflexivity].
  rewrite (sum_ext _ _ (fun _ => 0)); [apply sum_zero|]. intros k _. rewrite HX. ring.
Qed.

Lemma mm_zero_r S X : zero_mat X -> zero_mat (mm S X).
Proof.
  intros HX i j. unfold mm. cbn [ent mk]. destruct (_ && _)%bool; [|reflexivity].
  rewrite (sum_ext _ _ (fun _ => 0)); [apply sum_zero|]. intros k _. rewrite HX. ring.
Qed.

Lemma map_elem_zero h X : h 0 = 0 -> zero_mat X -> zero_mat (map_elem h X).
Proof.
  intros Hh HX i j. unfold map_elem. cbn [ent mk]. rewrite HX, Hh.
  destruct (_ && _)%bool; reflexivity.
Qed.

Lemma tanh_m_zero X : zero_mat X -> zero_mat (tanh_m X).
Proof. apply map_elem_zero, tanh_0. Qed.

Lemma relu_zero X : zero_mat X -> zero_mat (relu X).
Proof. apply map_elem_zero. unfold Rmax. destruct (Rle_dec 0 0); reflexivity. Qed.

Lemma zeros_zero r c : zero_mat (zeros r c).
Proof. intros i j. unfold zeros. cbn [ent mk]. destruct (_ && _)%bool; reflexivity. Qed.

Lemma gather_rows_zero A idx : zero_mat A -> zero_mat (gather_rows A idx).
Proof.
  intros HA i j. unfold gather_rows. cbn [ent mk]. rewrite HA. destruct (_ && _)%bool; reflexivity.
Qed.

Lemma add_zero A B l C : zero_mat A -> zero_mat B -> add A B = (l, Ok C) -> zero_mat C.
Proof.
  intros HA HB H. unfold add, ret, raise in H.
  destruct (bdim (rows A) (rows B)), (bdim (cols A) (cols B)); inversion H; subst.
  intros i j. unfold badd. cbn [ent mk]. rewrite HA, HB. destruct (_ && _)%bool; ring.
Qed.

Lemma own_term_zero ws X k l t : zero_mat X -> own_term ws X k = (l, Ok t) -> zero_mat t.
Proof.
  intros HX H. unfold own_term in H. split_binds.
  repeat match goal with H : matmul _ _ = (_, Ok _) |- _ => apply matmul_ok_inv in H as (_ & _ & ->) end.
  apply mm_zero_l. exact HX.
Qed.

Lemma shift_term_zero ws S X k l t : zero_mat X -> shift_term ws S X k = (l, Ok t) -> zero_mat t.
Proof.
  intros HX H. unfold shift_term in H. split_binds.
  repeat match goal with H : matmul _ _ = (_, Ok _) |- _ => apply matmul_ok_inv in H as (_ & _ & ->) end.
  apply mm_zero_l, mm_zero_r. exact HX.
Qed.

Ltac zero_steps :=
  repeat match goal with
  | H : own_term _ ?X _ = (_, Ok _), HX : zero_mat ?X |- _ =>
      apply (own_term_zero _ _ _ _ _ HX) in H
  | H : shift_term _ _ ?X _ = (_, Ok _), HX : zero_mat ?X |- _ =>
      apply (shift_term_zero _ _ _ _ _ _ HX) in H
  | H : add ?A ?B = (_, Ok _), HA : zero_mat ?A, HB : zero_mat ?B |- _ =>
      apply (add_zero _ _ _ _ HA HB) in H
  | H : ret _ = (_, Ok _) |- _ => apply ret_ok_inv in H as [_ <-]
  end.

Lemma scone_layer_zero ws L U i X l Y :
  zero_mat X -> scone_layer ws L U i X = (l, Ok Y) -> zero_mat Y.
Proof. intros HX H. unfold scone_layer in H. cbv zeta in H. split_binds. zero_steps. apply tanh_m_zero. assumption. Qed.

Lemma scnn_layer_2_zero ws n_k S1 S2 U1 U2 i X l Y :
  zero_mat X -> scnn_layer_2 ws n_k S1 S2 U1 U2 i X = (l, Ok Y) -> zero_mat Y.
Proof. intros HX H. unfold scnn_layer_2 in H. cbv zeta in H. split_binds. zero_steps. apply tanh_m_zero. assumption. Qed.

Lemma scnn_layer_3_zero ws n_k S1 S2 S3 U1 U2 U3 i X l Y :
  zero_mat X -> scnn_layer_3 ws n_k S1 S2 S3 U1 U2 U3 i X = (l, Ok Y) -> zero_mat Y.
Proof. intros HX H. unfold scnn_layer_3 in H. cbv zeta in H. split_binds. zero_steps. apply tanh_m_zero. assumption. Qed.

Lemma scnn_layer_4_zero ws n_k S1 S2 S3 S4 U1 U2 U3 U4 i X l Y :
  zero_mat X -> scnn_layer_4 ws n_k S1 S2 S3 S4 U1 U2 U3 U4 i X = (l, Ok Y) -> zero_mat Y.
Proof. intros HX H. unfold scnn_layer_4 in H. cbv zeta in H. split_binds. zero_steps. apply tanh_m_zero. assumption. Qed.

Lemma ebli_layer_zero ws S S2 S3 i X l Y :
  zero_mat X -> ebli_layer ws S S2 S3 i X = (l, Ok Y) -> zero_mat Y.
Proof. intros HX H. unfold ebli_layer in H. cbv zeta in H. split_binds. zero_steps. apply tanh_m_zero. assumption. Qed.

Lemma bunch_layer_zero ws S00 S10 S01 S11 S21 S12 S22 i x l y :
  zero_triple x -> bunch_layer ws S00 S10 S01 S11 S21 S12 S22 i x = (l, Ok y) -> zero_triple y.
Proof.
  destruct x as [[c0 c1] c2]. intros (H0 & H1 & H2) H. cbn [fst snd] in H0, H1, H2.
  unfold bunch_layer in H. cbv zeta in H. split_binds. zero_steps.
  unfold zero_triple. cbn [fst snd]. split; [|split]; apply relu_zero; assumption.
Qed.

Lemma readout_zero ws Bc X l o :
  zero_mat X -> readout ws Bc X = (l, Ok o) ->
  forall i j, (i < rows o)%nat -> (j < cols o)%nat -> ent o i j = - ln (INR (rows o * cols o)).
Proof.
  intros HX H. unfold readout in H. split_binds.
  repeat match goal with H : matmul _ _ = (_, Ok _) |- _ => apply matmul_ok_inv in H as (_ & _ & ->) end.
  match goal with H : ret _ = (_, Ok _) |- _ => apply ret_ok_inv in H as [_ <-] end.
  exact (log_softmax_zero _ (mm_zero_l _ _ (mm_zero_r _ _ HX))).
Qed.

Ltac zero_family f layer_zero :=
  let Hc := fresh "Hc" in
  intros Hf l o H; unfold f in H; cbv zeta in H; split_binds; unfold for_range in *;
  match goal with
  | Hl : for_range_from _ _ _ _ = (_, Ok ?cur) |- _ =>
      assert (Hc : zero_mat cur)
        by (refine (for_range_from_inv zero_mat _ _ _ _ _ _ _ Hf Hl);
            intros; eapply layer_zero; eassumption)
  end;
  match goal with Hr : readout _ _ _ = (_, Ok _) |- _ => exact (readout_zero _ _ _ _ _ Hc Hr) end.

(** X2. A zero input flow gives the uniform distribution: every
    successful forward pass on a flow of zeros returns [-log(#slots)] in
    every slot, whatever the weights and operators. *)
Theorem zero_flow_uniform_output :
  (forall ws L U Bf n flow, zero_mat flow -> uniform_run (scone_func ws L U Bf n flow)) /\
  (forall ws S1 S2 U1 U2 Bf n flow k1 k2,
     zero_mat flow -> uniform_run (scnn_func_2 ws S1 S2 U1 U2 Bf n flow k1 k2)) /\
  (forall ws S1 S2 S3 U1 U2 U3 Bf n flow k1 k2,
     zero_mat flow -> uniform_run (scnn_func_3 ws S1 S2 S3 U1 U2 U3 Bf n flow k1 k2)) /\
  (forall ws S1 S2 S3 S4 U1 U2 U3 U4 Bf n flow k1 k2,
     zero_mat flow -> uniform_run (scnn_func_4 ws S1 S2 S3 S4 U1 U2 U3 U4 Bf n flow k1 k2)) /\
  (forall ws S S2 S3 Bf n flow, zero_mat flow -> uniform_run (ebli_func ws S S2 S3 Bf n flow)) /\
  (forall ws S00 S10 S01 S11 S21 S12 S22 nbrhoods n flow,
     zero_mat flow -> uniform_run (bunch_func ws S00 S10 S01 S11 S21 S12 S22 nbrhoods n flow)).
Proof.
  split; [intros ws L U Bf n flow; zero_family scone_func scone_layer_zero|].
  split; [intros ws S1 S2 U1 U2 Bf n flow k1 k2; zero_family scnn_func_2 scnn_layer_2_zero|].
  split; [intros ws S1 S2 S3 U1 U2 U3 Bf n flow k1 k2; zero_family scnn_func_3 scnn_layer_3_zero|].
  split; [intros ws S1 S2 S3 S4 U1 U2 U3 U4 Bf n flow k1 k2;
          zero_family scnn_func_4 scnn_layer_4_zero|].
  split; [intros ws S S2 S3 Bf n flow; zero_family ebli_func ebli_layer_zero|].
  intros ws S00 S10 S01 S11 S21 S12 S22 nbrhoods n flow Hf l o H.
  unfold bunch_func in H. cbv zeta in H. split_binds. unfold for_range in *.
  match goal with
  | Hl : for_range_from _ _ _ _ = (_, Ok ?cur) |- _ =>
      assert (Hc : zero_triple cur)
        by (refine (for_range_from_inv zero_triple _ _ _ _ _ _ _ _ Hl);
            [intros; eapply bunch_layer_zero; eassumption
            | unfold zero_triple; cbn [fst snd]; split; [|split]; (apply zeros_zero || exact Hf)])
  end.
  match goal with a : (mat * mat * mat)%type |- _ => destruct a as [[x y] z] end.
  destruct Hc as (Hx & _ & _). cbn [fst snd] in Hx.
  apply ret_ok_inv in H2 as [_ <-].
  exact (log_softmax_zero _ (gather_rows_zero _ _ Hx)).
Qed.

(** X3. [bunch_func] with an empty weight list passes its weight-count
    check, runs no layer and returns the uniform distribution over the
    [len(nbrhoods[last_node])] slots, whatever the flow, provided
    [nbrhoods] and the node level ([S_00.shape[1]] rows) are non-empty
    (JAX raises when indexing an axis of size 0). *)
Theorem bunch_func_no_weights S00 S10 S01 S11 S21 S12 S22 nbrhoods n flow
    (Hnb : nbrhoods <> []) (Hc : (0 < cols S00)%nat) :
  exists o,
    bunch_func [] S00 S10 S01 S11 S21 S12 S22 nbrhoods n flow = ([], Ok o) /\
    rows o = length (jax_row nbrhoods n) /\ cols o = 1%nat /\
    (forall i j, (i < rows o)%nat -> (j < cols o)%nat ->
       ent o i j = - ln (INR (length (jax_row nbrhoods n)))).
Proof.
  eexists. split; [reflexivity|]. split; [reflexivity|]. split; [reflexivity|].
  intros i j Hi Hj.
  rewrite (log_softmax_zero _ (gather_rows_zero _ _ (zeros_zero (cols S00) 1)) i j Hi Hj).
  cbn [rows cols gather_rows mk]. rewrite Nat.mul_1_r. reflexivity.
Qed.

Lemma bunch_func_no_weights_witness :
  [[0%Z; (-1)%Z]] <> [] /\ (0 < cols (zeros 2 2))%nat /\
  exists o,
    bunch_func [] (zeros 2 2) (zeros 2 1) (zeros 1 2) (zeros 1 1) (zeros 1 1) (zeros 1 1)
      (zeros 1 1) [[0%Z; (-1)%Z]] 0 (zeros 1 1) = ([], Ok o) /\
    rows o = length (jax_row [[0%Z; (-1)%Z]] 0) /\ cols o = 1%nat /\
    (forall i j, (i < rows o)%nat -> (j < cols o)%nat ->
       ent o i j = - ln (INR (length (jax_row [[0%Z; (-1)%Z]] 0)))).
Proof.
  split; [discriminate|]. split; [cbn; lia|].
  apply bunch_func_no_weights; [discriminate | cbn; lia].
Defined.

(** ** Log-probabilities are at most 0 *)

Lemma nonpos_of_log_softmax (run : M mat) :
  (forall l o, run = (l, Ok o) -> exists A, o = log_softmax A) -> nonpos_run run.
Proof.
  intros H l o Hr i j Hi Hj. destruct (H l o Hr) as [A ->].
  exact (log_softmax_nonpos A i j Hi Hj).
Qed.

Lemma selector_log_softmax Bc (run : M mat) :
  selector_softmax Bc run -> forall l o, run = (l, Ok o) -> exists A, o = log_softmax A.
Proof.
  intros [_ Hp] l o Hr. destruct (Hp l o Hr) as (A & -> & _). exists A. reflexivity.
Qed.

Lemma bunch_func_log_softmax ws S00 S10 S01 S11 S21 S12 S22 nbrhoods n flow l o :
  bunch_func ws S00 S10 S01 S11 S21 S12 S22 nbrhoods n flow = (l, Ok o) ->
  exists A, o = log_softmax A.
Proof.
  intros H. unfold bunch_func in H. cbv zeta in H. split_binds.
  match goal with a : (mat * mat * mat)%type |- _ => destruct a as [[x y] z] end.
  apply ret_ok_inv in H2 as [_ <-]. eexists. reflexivity.
Qed.

(** X4. Every log-probability returned by a successful forward pass of any
    of the six models is at most 0. *)
Theorem log_probs_nonpositive :
  (forall ws L U Bf n flow, nonpos_run (scone_func ws L U Bf n flow)) /\
  (forall ws S1 S2 U1 U2 Bf n flow k1 k2,
     nonpos_run (scnn_func_2 ws S1 S2 U1 U2 Bf n flow k1 k2)) /\
  (forall ws S1 S2 S3 U1 U2 U3 Bf n flow k1 k2,
     nonpos_run (scnn_func_3 ws S1 S2 S3 U1 U2 U3 Bf n flow k1 k2)) /\
  (forall ws S1 S2 S3 S4 U1 U2 U3 U4 Bf n flow k1 k2,
     nonpos_run (scnn_func_4 ws S1 S2 S3 S4 U1 U2 U3 U4 Bf n flow k1 k2)) /\
  (forall ws S S2 S3 Bf n flow, nonpos_run (ebli_func ws S S2 S3 Bf n flow)) /\
  (forall ws S00 S10 S01 S11 S21 S12 S22 nbrhoods n flow,
     nonpos_run (bunch_func ws S00 S10 S01 S11 S21 S12 S22 nbrhoods n flow)).
Proof.
  split; [intros; apply nonpos_of_log_softmax, (selector_log_softmax _ _ (scone_func_output _ _ _ _ _ _))|].
  split; [intros; apply nonpos_of_log_softmax,
            (selector_log_softmax _ _ (scnn_func_2_output _ _ _ _ _ _ _ _ _ _))|].
  split; [intros; apply nonpos_of_log_softmax,
            (selector_log_softmax _ _ (scnn_func_3_output _ _ _ _ _ _ _ _ _ _ _ _))|].
  split; [intros; apply nonpos_of_log_softmax,
            (selector_log_softmax _ _ (scnn_func_4_output _ _ _ _ _ _ _ _ _ _ _ _ _ _))|].
  split; [intros; apply nonpos_of_log_softmax, (selector_log_softmax _ _ (ebli_func_output _ _ _ _ _ _ _))|].
  intros. apply nonpos_of_log_softmax. intros l o. apply bunch_func_log_softmax.
Qed.

(** ** Index errors *)

Lemma exn_eq_dec (a b : exn) : {a = b} + {a <> b}.
Proof. decide equality. Defined.

Lemma bind_nie {A B} (m : M A) (k : A -> M B) :
  no_index_error m -> (forall l a, m = (l, Ok a) -> no_index_error (k a)) ->
  no_index_error (bind m k).
Proof.
  unfold no_index_error. destruct m as [l [a|e]]; intros Hm Hk; cbn [bind].
  - specialize (Hk l a eq_refl). destruct (k a) as [l' r]. exact Hk.
  - cbn in *. destruct (exn_eq_dec e IndexError) as [->|]; [congruence|].
    intros Heq. injection Heq. assumption.
Qed.

Lemma ret_nie {A} (a : A) : no_index_error (ret a).
Proof. unfold no_index_error. cbn. discriminate. Qed.

Lemma matmul_nie A B : no_index_error (matmul A B).
Proof. unfold no_index_error, matmul. destruct (Nat.eqb _ _); cbn; discriminate. Qed.

Lemma add_nie A B : no_index_error (add A B).
Proof.
  unfold no_index_error, add.
  destruct (bdim _ _); [destruct (bdim _ _)|]; cbn; discriminate.
Qed.

Lemma assert_nie b : no_index_error (assert b).
Proof. unfold no_index_error, assert. destruct b; cbn; discriminate. Qed.

Lemma assert_ok_true b l u : assert b = (l, Ok u) -> b = true.
Proof. unfold assert. destruct b; [reflexivity | discriminate]. Qed.

Lemma py_norm_nonneg n i : (0 <= i)%Z -> py_norm n i = i.
Proof. intros H. unfold py_norm. destruct (Z.ltb_spec i 0); [lia | reflexivity]. Qed.

Lemma py_norm_neg1 n : py_norm n (-1) = (Z.of_nat n - 1)%Z.
Proof. unfold py_norm. change ((-1 <? 0)%Z) with true. cbv iota. lia. Qed.

Lemma py_index_nie {A} (l : list A) i :
  (0 <= py_norm (length l) i < Z.of_nat (length l))%Z -> no_index_error (py_index l i).
Proof.
  intros H. unfold py_index. cbv zeta.
  replace ((0 <=? py_norm (length l) i)%Z && (py_norm (length l) i <? Z.of_nat (length l))%Z)%bool
    with true by (symmetry; apply andb_true_intro; split; [apply Z.leb_le | apply Z.ltb_lt]; lia).
  destruct (nth_error l (Z.to_nat (py_norm (length l) i))) eqn:E.
  - apply ret_nie.
  - apply nth_error_None in E. lia.
Qed.

Lemma own_term_nie ws x k :
  (0 <= k < Z.of_nat (length ws))%Z -> no_index_error (own_term ws x k).
Proof.
  intros H. unfold own_term. apply bind_nie.
  - apply py_index_nie. rewrite py_norm_nonneg; lia.
  - intros. apply matmul_nie.
Qed.

Lemma shift_term_nie ws S x k :
  (0 <= k < Z.of_nat (length ws))%Z -> no_index_error (shift_term ws S x k).
Proof.
  intros H. unfold shift_term. apply bind_nie; [apply matmul_nie|]. intros.
  apply bind_nie.
  - apply py_index_nie. rewrite py_norm_nonneg; lia.
  - intros. apply matmul_nie.
Qed.

Lemma readout_nie ws Bc x : (1 <= length ws)%nat -> no_index_error (readout ws Bc x).
Proof.
  intros H. unfold readout. apply bind_nie; [apply matmul_nie|]. intros.
  apply bind_nie.
  - apply py_index_nie. rewrite py_norm_neg1. lia.
  - intros. apply bind_nie; [apply matmul_nie|]. intros. apply ret_nie.
Qed.

Lemma for_range_from_nie {A} i n (body : nat -> A -> M A) x :
  (forall j y, (i <= j < i + n)%nat -> no_index_error (body j y)) ->
  no_index_error (for_range_from i n body x).
Proof.
  revert i x. induction n as [|n IH]; intros i x H; cbn [for_range_from].
  - apply ret_nie.
  - apply bind_nie; [apply H; lia|]. intros l a _. apply IH. intros; apply H; lia.
Qed.

Ltac nie_steps :=
  repeat match goal with
  | |- no_index_error (bind _ _) => apply bind_nie; [| intros ? ? ?]
  | |- no_index_error (own_term _ _ _) => apply own_term_nie; lia
  | |- no_index_error (shift_term _ _ _ _) => apply shift_term_nie; lia
  | |- no_index_error (add _ _) => apply add_nie
  | |- no_index_error (matmul _ _) => apply matmul_nie
  | |- no_index_error (ret _) => apply ret_nie
  end.

Lemma layers_ok_bound num g j :
  (0 < g)%Z -> layers_ok num g = true -> (j < n_layers_of num g)%nat ->
  (0 <= Z.of_nat j * g)%Z /\ (Z.of_nat j * g + g <= num)%Z.
Proof.
  intros Hg Hok Hj. unfold layers_ok in Hok. apply Z.eqb_eq in Hok.
  unfold n_layers_of in Hj.
  pose proof (Z.div_mod num g ltac:(lia)) as Hd. rewrite Hok, Z.add_0_r in Hd.
  assert (Z.of_nat j < num / g)%Z by lia. split; nia.
Qed.

Lemma layers_ok_nonneg num g :
  (1 < g)%Z -> (-1 <= num)%Z -> layers_ok num g = true -> (0 <= num)%Z.
Proof.
  intros Hg Hn Hok. unfold layers_ok in Hok. apply Z.eqb_eq in Hok.
  destruct (Z.eq_dec num (-1)) as [->|]; [|lia]. exfalso.
  pose proof (Z.div_mod (-1) g ltac:(lia)) as Hd. rewrite Hok in Hd.
  destruct (Z.neg_nonneg_cases (-1 / g)); nia.
Qed.

Lemma scone_layer_nie ws L U i x :
  (0 <= Z.of_nat i * 3)%Z -> (Z.of_nat i * 3 + 3 <= Z.of_nat (length ws))%Z ->
  no_index_error (scone_layer ws L U i x).
Proof. intros. unfold scone_layer. cbv zeta. nie_steps. Qed.

Lemma scnn_layer_2_nie ws n_k S1 S2 U1 U2 i x :
  (0 <= Z.of_nat i * n_k)%Z -> (Z.of_nat i * n_k + 5 <= Z.of_nat (length ws))%Z ->
  no_index_error (scnn_layer_2 ws n_k S1 S2 U1 U2 i x).
Proof. intros. unfold scnn_layer_2. cbv zeta. nie_steps. Qed.

Lemma scnn_layer_3_nie ws n_k S1 S2 S3 U1 U2 U3 i x :
  (0 <= Z.of_nat i * n_k)%Z -> (Z.of_nat i * n_k + 7 <= Z.of_nat (length ws))%Z ->
  no_index_error (scnn_layer_3 ws n_k S1 S2 S3 U1 U2 U3 i x).
Proof. intros. unfold scnn_layer_3. cbv zeta. nie_steps. Qed.

Lemma scnn_layer_4_nie ws n_k S1 S2 S3 S4 U1 U2 U3 U4 i x :
  (0 <= Z.of_nat i * n_k)%Z -> (Z.of_nat i * n_k + 9 <= Z.of_nat (length ws))%Z ->
  no_index_error (scnn_layer_4 ws n_k S1 S2 S3 S4 U1 U2 U3 U4 i x).
Proof. intros. unfold scnn_layer_4. cbv zeta. nie_steps. Qed.

Lemma ebli_layer_nie ws S S2 S3 i x :
  (0 <= Z.of_nat i * 4)%Z -> (Z.of_nat i * 4 + 4 <= Z.of_nat (length ws))%Z ->
  no_index_error (ebli_layer ws S S2 S3 i x).
Proof. intros. unfold ebli_layer. cbv zeta. nie_steps. Qed.

Lemma bunch_layer_nie ws S00 S10 S01 S11 S21 S12 S22 i x :
  (0 <= Z.of_nat i * 7)%Z -> (Z.of_nat i * 7 + 7 <= Z.of_nat (length ws))%Z ->
  no_index_error (bunch_layer ws S00 S10 S01 S11 S21 S12 S22 i x).
Proof.
  intros. unfold bunch_layer. cbv zeta. destruct x as [[c0 c1] c2]. nie_steps.
Qed.

Ltac nie_prefix :=
  cbv zeta; apply bind_nie; [apply assert_nie|];
  let Ha := fresh "Ha" in
  intros ? [] Ha; apply assert_ok_true in Ha; apply bind_nie; [unfold for_range|].

Ltac nie_loop g layer_nie :=
  apply for_range_from_nie;
  let Hj := fresh "Hj" in
  intros ?j ?y Hj;
  match goal with
  | Ha : layers_ok ?num _ = true, Hj : (0 <= ?j < 0 + _)%nat |- _ =>
    destruct (layers_ok_bound num g j ltac:(lia) Ha ltac:(lia)) end;
  apply layer_nie; lia.

Ltac nie_readout g :=
  intros; apply readout_nie;
  match goal with Ha : layers_ok ?num _ = true |- _ =>
    pose proof (layers_ok_nonneg num g ltac:(lia) ltac:(lia) Ha) end; lia.

(** X5. The forward passes of [scone_func] and [ebli_func] never raise
    [IndexError]: once the weight-count assertion passes, every
    [weights[...]] they read, including [weights[-1]], is in range. *)
Theorem forward_passes_never_index_error :
  (forall ws L U Bf n flow, no_index_error (scone_func ws L U Bf n flow)) /\
  (forall ws S S2 S3 Bf n flow, no_index_error (ebli_func ws S S2 S3 Bf n flow)).
Proof.
  split; intros.
  - unfold scone_func. nie_prefix; [nie_loop 3%Z scone_layer_nie | nie_readout 3%Z].
  - unfold ebli_func. nie_prefix; [nie_loop 4%Z ebli_layer_nie | nie_readout 4%Z].
Qed.

(** X9. For a non-empty [nbrhoods] and an [S_00] with at least one row and
    one column, [bunch_func] never raises [IndexError], whatever
    [last_node]: the weights it reads are in range once the count assertion
    passes, and [nbrhoods[last_node]] and [nodes_out[...]] index non-empty
    axes, on which JAX clamps out-of-range indices (on an axis of size 0
    JAX raises, hence the hypotheses). *)
Theorem bunch_func_never_index_error ws S00 S10 S01 S11 S21 S12 S22 nbrhoods n flow
    (Hnb : nbrhoods <> []) (Hr : (0 < rows S00)%nat) (Hc : (0 < cols S00)%nat) :
  no_index_error (bunch_func ws S00 S10 S01 S11 S21 S12 S22 nbrhoods n flow).
Proof.
  unfold bunch_func. nie_prefix; [nie_loop 7%Z bunch_layer_nie|].
  intros ? [[x y] z] _. apply ret_nie.
Qed.

Lemma bunch_func_never_index_error_witness :
  [[0%Z]] <> [] /\ (0 < rows (zeros 1 1))%nat /\ (0 < cols (zeros 1 1))%nat /\
  no_index_error (bunch_func (repeat (zeros 1 1) 7) (zeros 1 1) (zeros 1 1) (zeros 1 1)
                    (zeros 1 1) (zeros 1 1) (zeros 1 1) (zeros 1 1) [[0%Z]] 5 (zeros 1 1)).
Proof.
  split; [discriminate|]. split; [cbn; lia|]. split; [cbn; lia|].
  apply bunch_func_never_index_error; [discriminate | cbn; lia | cbn; lia].
Defined.

(** X6. With [k1 + k2 >= 3] (the defaults give 4), [scnn_func_2] never
    raises [IndexError]: a layer group of [1 + k1 + k2] weights covers the
    five weights a layer reads, the last one possibly being [weights[-1]]. *)
Theorem scnn_func_2_never_index_error ws S1 S2 U1 U2 Bf n flow k1 k2
    (Hk : (3 <= k1 + k2)%nat) :
  no_index_error (scnn_func_2 ws S1 S2 U1 U2 Bf n flow k1 k2).
Proof.
  unfold scnn_func_2.
  nie_prefix; [nie_loop (Z.of_nat (1 + k1 + k2)) scnn_layer_2_nie
              | nie_readout (Z.of_nat (1 + k1 + k2))].
Qed.

Lemma scnn_func_2_never_index_error_witness :
  (3 <= 2 + 2)%nat /\
  no_index_error (scnn_func_2 (repeat (zeros 1 1) 6) (zeros 1 1) (zeros 1 1) (zeros 1 1) (zeros 1 1) (fun _ => (zeros 1 1)) 0%Z (zeros 1 1) 2 2).
Proof. split; [lia | apply scnn_func_2_never_index_error; lia]. Defined.

(** X7. With [k1 + k2 >= 5], [scnn_func_3] never raises [IndexError]. *)
Theorem scnn_func_3_never_index_error ws S1 S2 S3 U1 U2 U3 Bf n flow k1 k2
    (Hk : (5 <= k1 + k2)%nat) :
  no_index_error (scnn_func_3 ws S1 S2 S3 U1 U2 U3 Bf n flow k1 k2).
Proof.
  unfold scnn_func_3.
  nie_prefix; [nie_loop (Z.of_nat (1 + k1 + k2)) scnn_layer_3_nie
              | nie_readout (Z.of_nat (1 + k1 + k2))].
Qed.

Lemma scnn_func_3_never_index_error_witness :
  (5 <= 3 + 3)%nat /\
  no_index_error (scnn_func_3 (repeat (zeros 1 1) 8) (zeros 1 1) (zeros 1 1) (zeros 1 1) (zeros 1 1) (zeros 1 1) (zeros 1 1) (fun _ => (zeros 1 1)) 0%Z (zeros 1 1) 3 3).
Proof. split; [lia | apply scnn_func_3_never_index_error; lia]. Defined.

(** X8. With [k1 + k2 >= 7], [scnn_func_4] never raises [IndexError]. *)
Theorem scnn_func_4_never_index_error ws S1 S2 S3 S4 U1 U2 U3 U4 Bf n flow k1 k2
    (Hk : (7 <= k1 + k2)%nat) :
  no_index_error (scnn_func_4 ws S1 S2 S3 S4 U1 U2 U3 U4 Bf n flow k1 k2).
Proof.
  unfold scnn_func_4.
  nie_prefix; [nie_loop (Z.of_nat (1 + k1 + k2)) scnn_layer_4_nie
              | nie_readout (Z.of_nat (1 + k1 + k2))].
Qed.

Lemma scnn_func_4_never_index_error_witness :
  (7 <= 4 + 4)%nat /\
  no_index_error (scnn_func_4 (repeat (zeros 1 1) 10) (zeros 1 1) (zeros 1 1) (zeros 1 1) (zeros 1 1) (zeros 1 1) (zeros 1 1) (zeros 1 1) (zeros 1 1) (fun _ => (zeros 1 1)) 0%Z (zeros 1 1) 4 4).
Proof. split; [lia | apply scnn_func_4_never_index_error; lia]. Defined.

(** ** Activation functions *)

(** X10. Entry-wise, [sigmoid] lies strictly between 0 and 1 and satisfies
    [sigmoid(-x) = 1 - sigmoid(x)]; [tanh(x) = 2 sigmoid(2x) - 1]; and
    [leaky_relu(x) = relu(x) - 0.01 relu(-x)]. *)
Theorem activations_relations x i j (Hi : (i < rows x)%nat) (Hj : (j < cols x)%nat) :
  0 < ent (sigmoid x) i j < 1 /\
  ent (sigmoid (map_elem Ropp x)) i j = 1 - ent (sigmoid x) i j /\
  ent (tanh_m x) i j = 2 * ent (sigmoid (map_elem (fun v => 2 * v) x)) i j - 1 /\
  ent (leaky_relu x) i j = ent (relu x) i j - (1 / 100) * ent (relu (map_elem Ropp x)) i j.
Proof.
  unfold sigmoid, tanh_m, leaky_relu, relu, map_elem.
  repeat rewrite ent_mk by (cbn [rows cols mk]; assumption).
  set (v := ent x i j).
  pose proof (exp_pos v) as Ha. pose proof (exp_pos (- v)) as Hb.
  assert (Hab : exp (- v) = / exp v) by apply exp_Ropp.
  split; [|split; [|split]].
  - unfold Rdiv. rewrite Rmult_1_l. split; [apply Rinv_0_lt_compat; lra|].
    rewrite <- Rinv_1 at 2. apply Rinv_1_lt_contravar; lra.
  - rewrite Ropp_involutive, Hab. field. split; lra.
  - unfold tanh, sinh, cosh.
    replace (- (2 * v)) with (- v + - v) by ring. rewrite exp_plus, Hab.
    field. split; [lra|]. assert (0 < exp v * exp v) by (apply Rmult_lt_0_compat; lra). lra.
  - unfold Rmax. destruct (Rle_dec 0 v); destruct (Rle_dec v 0); destruct (Rle_dec (- v) 0); lra.
Qed.

Lemma activations_relations_witness :
  (0 < rows (zeros 1 1))%nat /\ (0 < cols (zeros 1 1))%nat /\
  0 < ent (sigmoid (zeros 1 1)) 0 0 < 1 /\
  ent (sigmoid (map_elem Ropp (zeros 1 1))) 0 0 = 1 - ent (sigmoid (zeros 1 1)) 0 0 /\
  ent (tanh_m (zeros 1 1)) 0 0 =
    2 * ent (sigmoid (map_elem (fun v => 2 * v) (zeros 1 1))) 0 0 - 1 /\
  ent (leaky_relu (zeros 1 1)) 0 0 =
    ent (relu (zeros 1 1)) 0 0 - (1 / 100) * ent (relu (map_elem Ropp (zeros 1 1))) 0 0.
Proof.
  split; [cbn; lia|]. split; [cbn; lia|].
  apply activations_relations; cbn; lia.
Defined.

(** ** The command-line parser *)

Lemma bind_assoc {A B C} (m : M A) (f : A -> M B) (g : B -> M C) :
  bind (bind m f) g = bind m (fun a => bind (f a) g).
Proof.
  destruct m as [l [a|e]]; cbn; [|reflexivity].
  destruct (f a) as [l1 [b|e]]; cbn; [|reflexivity].
  destruct (g b) as [l2 r]. rewrite app_assoc. reflexivity.
Qed.

Lemma for_range_from_add {A} (body : nat -> A -> M A) n m :
  forall i x, for_range_from i (n + m) body x =
              bind (for_range_from i n body x) (for_range_from (i + n) m body).
Proof.
  induction n as [|n IH]; intros i x; cbn [Nat.add for_range_from].
  - rewrite bind_ret, Nat.add_0_r. reflexivity.
  - rewrite bind_assoc. apply bind_ext_ok. intros l a _.
    rewrite IH. replace (S i + n)%nat with (i + S n)%nat by lia. reflexivity.
Qed.

Lemma for_range_from_one {A} (body : nat -> A -> M A) i x :
  for_range_from i 1 body x = body i x.
Proof.
  cbn. destruct (body i x) as [l [a|e]]; cbn; [rewrite app_nil_r|]; reflexivity.
Qed.

Lemma py_index_at_length {A} (l : list A) :
  py_index l (Z.of_nat (length l)) = raise IndexError.
Proof.
  unfold py_index. cbv zeta. rewrite py_norm_nonneg by lia.
  replace ((Z.of_nat (length l) <? Z.of_nat (length l))%Z) with false
    by (symmetry; apply Z.ltb_ge; lia).
  rewrite andb_false_r. reflexivity.
Qed.

Lemma hidden_layers_body_ok nums t hl :
  (2 * t + 1 < length nums)%nat ->
  hidden_layers_body nums t hl = ret (hl ++ [pair_at nums t]).
Proof.
  intros H. unfold hidden_layers_body.
  rewrite (py_index_nat _ _ 0%Z) by lia. rewrite bind_ret.
  replace (Z.of_nat (2 * t) + 1)%Z with (Z.of_nat (2 * t + 1)) by lia.
  rewrite (py_index_nat _ _ 0%Z) by lia. rewrite bind_ret. reflexivity.
Qed.

Lemma hidden_layers_loop nums k :
  forall t, (2 * (t + k) <= length nums)%nat ->
  for_range_from t k (hidden_layers_body nums) (map (pair_at nums) (seq 0 t)) =
  ret (map (pair_at nums) (seq 0 (t + k))).
Proof.
  induction k as [|k IH]; intros t H; cbn [for_range_from].
  - rewrite Nat.add_0_r. reflexivity.
  - rewrite hidden_layers_body_ok by lia. rewrite bind_ret.
    replace (map (pair_at nums) (seq 0 t) ++ [pair_at nums t])
      with (map (pair_at nums) (seq 0 (S t))) by (rewrite seq_S, map_app; reflexivity).
    rewrite IH by lia. replace (S t + k)%nat with (t + S k)%nat by lia. reflexivity.
Qed.

Lemma hidden_layers_loop_odd nums k :
  forall t hl, (0 < k)%nat -> (2 * (t + k) = S (length nums))%nat ->
  for_range_from t k (hidden_layers_body nums) hl = raise IndexError.
Proof.
  induction k as [|k IH]; intros t hl Hk H; [lia|]. cbn [for_range_from].
  destruct k as [|k].
  - unfold hidden_layers_body.
    rewrite (py_index_nat _ _ 0%Z) by lia. rewrite bind_ret.
    replace (Z.of_nat (2 * t) + 1)%Z with (Z.of_nat (length nums)) by lia.
    rewrite py_index_at_length. reflexivity.
  - rewrite hidden_layers_body_ok by lia. rewrite bind_ret. apply IH; lia.
Qed.

(** X11. The [hidden_layers] loop pairs the fields two by two:
    [(nums[0], nums[1]), (nums[2], nums[3]), ...] for an even number of
    fields, and raises [IndexError] on [nums[len(nums)]] for an odd number. *)
Theorem hidden_layers_pairs nums :
  hidden_layers_of nums =
  if Nat.even (length nums) then ret (consecutive_pairs nums) else raise IndexError.
Proof.
  unfold hidden_layers_of, for_range, consecutive_pairs.
  destruct (Nat.even (length nums)) eqn:E.
  - apply Nat.even_spec in E as [m Hm].
    replace ((length nums + 1) / 2)%nat with m
      by (apply Nat.div_unique with (r := 1%nat); lia).
    replace (length nums / 2)%nat with m
      by (apply Nat.div_unique with (r := 0%nat); lia).
    exact (hidden_layers_loop nums m 0 ltac:(lia)).
  - assert (Ho : Nat.odd (length nums) = true) by (rewrite <- Nat.negb_even, E; reflexivity).
    apply Nat.odd_spec in Ho as [m Hm].
    replace ((length nums + 1) / 2)%nat with (S m)
      by (apply Nat.div_unique with (r := 0%nat); lia).
    apply hidden_layers_loop_odd; lia.
Qed.

Lemma dict_get_set_same k v d : dict_get k (dict_set k v d) = Some v.
Proof.
  induction d as [|[k' v'] t IH]; cbn.
  - rewrite String.eqb_refl. reflexivity.
  - destruct (String.eqb k k') eqn:E; cbn.
    + rewrite String.eqb_refl. reflexivity.
    + rewrite E. exact IH.
Qed.

Lemma dict_get_set_other k k2 v d :
  k <> k2 -> dict_get k (dict_set k2 v d) = dict_get k d.
Proof.
  intros Hne. induction d as [|[k' v'] t IH]; cbn.
  - apply String.eqb_neq in Hne. rewrite Hne. reflexivity.
  - destruct (String.eqb k2 k') eqn:E; cbn.
    + apply String.eqb_eq in E. subst k'.
      apply String.eqb_neq in Hne. rewrite Hne. reflexivity.
    + destruct (String.eqb k k'); [reflexivity | exact IH].
Qed.

(** The loop of [hyperparams] over [args ++ suf]: the positions of [args],
    then those of [suf] but its last. *)
Lemma hyperparams_app py_int py_float args suf :
  suf <> [] ->
  hyperparams py_int py_float (args ++ suf) =
  bind (for_range_from 0 (length args) (hyperparams_step py_int py_float (args ++ suf))
          hyperparams_defaults)
       (for_range_from (length args) (length suf - 1)
          (hyperparams_step py_int py_float (args ++ suf))).
Proof.
  intros Hs. unfold hyperparams, for_range. rewrite length_app.
  destruct suf as [|s suf]; [congruence|].
  replace (length args + length (s :: suf) - 1)%nat with (length args + (length (s :: suf) - 1))%nat
    by (cbn; lia).
  rewrite for_range_from_add. reflexivity.
Qed.

Lemma hyperparams_step_empty py_int py_float args i hp :
  (i < length args)%nat -> nth i args EmptyString = EmptyString ->
  hyperparams_step py_int py_float args i hp = raise IndexError.
Proof.
  intros Hi Ha. unfold hyperparams_step.
  rewrite (py_index_nat _ _ EmptyString) by exact Hi. rewrite bind_ret, Ha. reflexivity.
Qed.

Lemma hyperparams_step_str py_int py_float args i k v hp :
  (i + 1 < length args)%nat ->
  nth i args EmptyString = String "-" k -> nth (i + 1) args EmptyString = v ->
  In k str_keys ->
  hyperparams_step py_int py_float args i hp = ret (dict_set k (HStr v) hp).
Proof.
  intros Hi Ha Hv Hk. unfold hyperparams_step.
  rewrite (py_index_nat _ _ EmptyString) by lia. rewrite bind_ret, Ha.
  cbn [str_index0 str_drop1]. rewrite bind_ret, Ascii.eqb_refl. cbv zeta.
  assert (E1 : String.eqb k "hidden_layers" = false)
    by (destruct Hk as [<-|[<-|[<-|[<-|[]]]]]; reflexivity).
  assert (E2 : existsb (String.eqb k) str_keys = true)
    by (apply existsb_exists; exists k; split; [exact Hk | apply String.eqb_refl]).
  rewrite E1, E2.
  replace (Z.of_nat i + 1)%Z with (Z.of_nat (i + 1)) by lia.
  rewrite (py_index_nat _ _ EmptyString) by lia. rewrite bind_ret, Hv. reflexivity.
Qed.

Lemma hyperparams_step_float py_int py_float args i k v hp :
  (i + 1 < length args)%nat ->
  nth i args EmptyString = String "-" k -> nth (i + 1) args EmptyString = v ->
  String.eqb k "hidden_layers" = false -> existsb (String.eqb k) str_keys = false ->
  hyperparams_step py_int py_float args i hp =
  match py_float v with
  | Some r => ret (dict_set k (HFloat r) hp)
  | None => raise ValueError
  end.
Proof.
  intros Hi Ha Hv E1 E2. unfold hyperparams_step.
  rewrite (py_index_nat _ _ EmptyString) by lia. rewrite bind_ret, Ha.
  cbn [str_index0 str_drop1]. rewrite bind_ret, Ascii.eqb_refl. cbv zeta.
  rewrite E1, E2.
  replace (Z.of_nat i + 1)%Z with (Z.of_nat (i + 1)) by lia.
  rewrite (py_index_nat _ _ EmptyString) by lia. rewrite bind_ret, Hv.
  unfold float_m. destruct (py_float v); reflexivity.
Qed.

Lemma nth_app_len {A} (args suf : list A) j d :
  nth (length args + j) (args ++ suf) d = nth j suf d.
Proof. rewrite app_nth2 by lia. f_equal. lia. Qed.

Lemma nth_app_at {A} (args suf : list A) i j d :
  i = (length args + j)%nat -> nth i (args ++ suf) d = nth j suf d.
Proof. intros ->. apply nth_app_len. Qed.

Lemma for_range_from_two {A} (body : nat -> A -> M A) i x :
  for_range_from i 2 body x = bind (body i x) (body (i + 1)%nat).
Proof.
  change 2%nat with (1 + 1)%nat. rewrite for_range_from_add, for_range_from_one.
  apply bind_ext_ok. intros l a _. apply for_range_from_one.
Qed.

(** X12. The last occurrence of a string option wins: whatever precedes it,
    if [hyperparams] returns for a command line ending in [-k v] with [k]
    one of [model_name], [data_folder_suffix], [multi_graph], [model], the
    value of [k] is the string [v]. *)
Theorem hyperparams_last_str_flag_wins py_int py_float args k v l hp
    (Hk : In k str_keys)
    (H : hyperparams py_int py_float (args ++ [String "-" k; v]) = (l, Ok hp)) :
  dict_get k hp = Some (HStr v).
Proof.
  rewrite hyperparams_app in H by discriminate.
  apply bind_ok_inv in H as (l1 & d & l2 & _ & H2 & _).
  cbn [length Nat.sub] in H2. rewrite for_range_from_one in H2.
  rewrite (hyperparams_step_str _ _ _ _ k v) in H2 by
    (try (rewrite length_app; cbn [length]; lia);
     try (rewrite (nth_app_at args _ _ 0) by lia; reflexivity);
     try (rewrite (nth_app_at args _ _ 1) by lia; reflexivity);
     exact Hk).
  apply ret_ok_inv in H2 as [_ <-]. apply dict_get_set_same.
Qed.

Lemma hyperparams_last_str_flag_wins_witness :
  In "model"%string str_keys /\
  hyperparams (fun _ => None) (fun _ => None) (["prog"%string] ++ [String "-" "model"; "scone"%string]) =
    ([], Ok (dict_set "model" (HStr "scone") hyperparams_defaults)) /\
  dict_get "model" (dict_set "model" (HStr "scone") hyperparams_defaults) = Some (HStr "scone").
Proof.
  split; [cbn; tauto|]. split; [reflexivity|].
  apply (hyperparams_last_str_flag_wins (fun _ => None) (fun _ => None) ["prog"%string]
           "model" "scone" []); [cbn; tauto | reflexivity].
Defined.

(** X13. A command line with an empty argument anywhere before the last one
    never yields a dict: [args[i][0]] raises [IndexError] there, unless an
    earlier argument already raised. *)
Theorem hyperparams_empty_arg_fails py_int py_float pre post l hp (Hpost : post <> []) :
  hyperparams py_int py_float (pre ++ EmptyString :: post) <> (l, Ok hp).
Proof.
  intros H. rewrite hyperparams_app in H by discriminate.
  apply bind_ok_inv in H as (l1 & d & l2 & _ & H2 & _).
  destruct post as [|p post]; [congruence|]. cbn [length] in H2.
  replace (S (S (length post)) - 1)%nat with (S (length post)) in H2 by lia.
  cbn [for_range_from] in H2. apply bind_ok_inv in H2 as (l3 & d' & l4 & H3 & _ & _).
  rewrite hyperparams_step_empty in H3; [discriminate | |].
  - rewrite length_app. cbn [length]. lia.
  - rewrite (nth_app_at pre _ _ 0) by lia. reflexivity.
Qed.

Lemma hyperparams_empty_arg_fails_witness :
  ["x"]%string <> [] /\
  hyperparams (fun _ => None) (fun _ => None) (["prog"%string] ++ EmptyString :: ["x"%string]) <>
    ([], Ok hyperparams_defaults).
Proof. split; [discriminate | apply hyperparams_empty_arg_fails; discriminate]. Defined.

(** X14. The value of a string option is itself scanned as a flag: a command
    line ending in [-k -k2 v], with [k] a string option and [k2] a numeric
    one, sets [k] to the string ["-k2"] and [k2] to [float(v)]. *)
Theorem hyperparams_value_read_as_flag py_int py_float args k k2 v l hp
    (Hk : In k str_keys) (Hk2 : String.eqb k2 "hidden_layers" = false)
    (Hk2' : existsb (String.eqb k2) str_keys = false)
    (H : hyperparams py_int py_float (args ++ [String "-" k; String "-" k2; v]) = (l, Ok hp)) :
  dict_get k hp = Some (HStr (String "-" k2)) /\
  exists r, py_float v = Some r /\ dict_get k2 hp = Some (HFloat r).
Proof.
  assert (Hne : k <> k2).
  { intros ->. assert (existsb (String.eqb k2) str_keys = true)
      by (apply existsb_exists; exists k2; split; [exact Hk | apply String.eqb_refl]).
    congruence. }
  rewrite hyperparams_app in H by discriminate.
  apply bind_ok_inv in H as (l1 & d & l2 & _ & H2 & _).
  cbn [length Nat.sub] in H2. rewrite for_range_from_two in H2.
  rewrite (hyperparams_step_str _ _ _ _ k (String "-" k2)) in H2 by
    (try (rewrite length_app; cbn [length]; lia);
     try (rewrite (nth_app_at args _ _ 0) by lia; reflexivity);
     try (rewrite (nth_app_at args _ _ 1) by lia; reflexivity);
     exact Hk).
  rewrite bind_ret in H2.
  rewrite (hyperparams_step_float _ _ _ _ k2 v) in H2 by
    (try (rewrite length_app; cbn [length]; lia);
     try (rewrite (nth_app_at args _ _ 1) by lia; reflexivity);
     try (rewrite (nth_app_at args _ _ 2) by lia; reflexivity);
     assumption).
  destruct (py_float v) as [r|]; [|discriminate].
  apply ret_ok_inv in H2 as [_ <-]. split.
  - rewrite dict_get_set_other by exact Hne. apply dict_get_set_same.
  - exists r. split; [reflexivity | apply dict_get_set_same].
Qed.

Lemma hyperparams_value_read_as_flag_witness :
  In "model_name"%string str_keys /\ String.eqb "epochs" "hidden_layers" = false /\
  existsb (String.eqb "epochs") str_keys = false /\
  hyperparams (fun _ => None) (fun s => if String.eqb s "5" then Some 5 else None)
    (["prog"%string] ++ [String "-" "model_name"; String "-" "epochs"; "5"%string]) =
    ([], Ok (dict_set "epochs" (HFloat 5)
               (dict_set "model_name" (HStr "-epochs") hyperparams_defaults))) /\
  (dict_get "model_name"
     (dict_set "epochs" (HFloat 5) (dict_set "model_name" (HStr "-epochs") hyperparams_defaults))
   = Some (HStr (String "-" "epochs")) /\
   exists r, (if String.eqb "5" "5" then Some 5 else None) = Some r /\
     dict_get "epochs"
       (dict_set "epochs" (HFloat 5) (dict_set "model_name" (HStr "-epochs") hyperparams_defaults))
     = Some (HFloat r)).
Proof.
  split; [cbn; tauto|]. split; [reflexivity|]. split; [reflexivity|]. split; [reflexivity|].
  apply (hyperparams_value_read_as_flag (fun _ => None)
           (fun s => if String.eqb s "5" then Some 5 else None) ["prog"%string]
           "model_name" "epochs" "5" []); [cbn; tauto | reflexivity | reflexivity | reflexivity].
Defined.

(** ** The edge list [E] and [E_lookup] *)

Lemma filter_seq_two (p : nat -> bool) n a b :
  (a < b < n)%nat -> (forall i, (i < n)%nat -> (p i = true <-> i = a \/ i = b)) ->
  filter p (seq 0 n) = [a; b].
Proof.
  intros Hab Hp.
  assert (G : forall m, (m <= n)%nat ->
            filter p (seq 0 m) =
            (if Nat.ltb a m then [a] else []) ++ (if Nat.ltb b m then [b] else [])).
  { induction m as [|m IH]; intros Hm; [reflexivity|].
    rewrite seq_S, Nat.add_0_l, filter_app, IH by lia. cbn [filter].
    destruct (Hp m ltac:(lia)) as [H1 H2].
    destruct (p m) eqn:Ep.
    - destruct (H1 eq_refl) as [->| ->];
        repeat match goal with |- context [Nat.ltb ?x ?y] => destruct (Nat.ltb_spec x y) end;
        try lia; reflexivity.
    - assert (m <> a /\ m <> b)
        by (split; intros ->; [specialize (H2 (or_introl eq_refl))
                              | specialize (H2 (or_intror eq_refl))]; congruence).
      repeat match goal with |- context [Nat.ltb ?x ?y] => destruct (Nat.ltb_spec x y) end;
        try lia; reflexivity. }
  rewrite G by lia.
  repeat match goal with |- context [Nat.ltb ?x ?y] => destruct (Nat.ltb_spec x y) end;
    try lia; reflexivity.
Qed.

Lemma nonzero_T_cols_incidence B1 (a b : nat -> nat) :
  (forall j, (j < cols B1)%nat -> (a j < b j < rows B1)%nat) ->
  (forall j i, (j < cols B1)%nat -> (i < rows B1)%nat ->
     (ent B1 i j <> 0 <-> i = a j \/ i = b j)) ->
  nonzero_T_cols B1 = flat_map (fun j => [a j; b j]) (seq 0 (cols B1)).
Proof.
  intros Hab Hnz. unfold nonzero_T_cols. rewrite !flat_map_concat_map. f_equal.
  apply map_ext_in. intros j Hj. apply in_seq in Hj.
  apply filter_seq_two; [apply Hab; lia|]. intros i Hi.
  rewrite <- (Hnz j i) by lia.
  destruct (Req_EM_T (ent B1 i j) 0) as [E|E]; split; intros H; try tauto; discriminate.
Qed.

Lemma flat_map_pairs_length (a b : nat -> nat) c k :
  length (flat_map (fun j => [a j; b j]) (seq k c)) = (2 * c)%nat.
Proof.
  revert k. induction c as [|c IH]; intros k; [reflexivity|].
  cbn [seq flat_map]. cbn [app length]. rewrite IH. lia.
Qed.

Lemma take_sections_pairs (a b : nat -> nat) c :
  forall k, take_sections (repeat 2%nat c) (flat_map (fun j => [a j; b j]) (seq k c)) =
            map (fun j => [a j; b j]) (seq k c).
Proof.
  induction c as [|c IH]; intros k; [reflexivity|].
  cbn [repeat seq flat_map map take_sections]. cbn [app firstn skipn].
  rewrite IH. reflexivity.
Qed.

(** X16. For an incidence matrix [B1] whose edge [j] has exactly the two
    nonzero entries at nodes [a j < b j], [data_setup] builds the edge list
    [E = [(a 0, b 0), (a 1, b 1), ...]] in column order, with no error. *)
Theorem data_setup_edges_incidence B1 (a b : nat -> nat)
    (Hc : (0 < cols B1)%nat)
    (Hab : forall j, (j < cols B1)%nat -> (a j < b j < rows B1)%nat)
    (Hnz : forall j i, (j < cols B1)%nat -> (i < rows B1)%nat ->
             (ent B1 i j <> 0 <-> i = a j \/ i = b j)) :
  data_setup_edges B1 =
  ret (map (fun j => [a j; b j]) (seq 0 (cols B1)),
       E_lookup_of (map (fun j => [a j; b j]) (seq 0 (cols B1)))).
Proof.
  unfold data_setup_edges. cbv zeta.
  rewrite (nonzero_T_cols_incidence B1 a b Hab Hnz), flat_map_pairs_length.
  replace (2 * cols B1 / 2)%nat with (cols B1) by (rewrite Nat.mul_comm, Nat.div_mul; lia).
  unfold array_split. destruct (Nat.eqb_spec (cols B1) 0) as [|_]; [lia|]. cbv zeta.
  rewrite flat_map_pairs_length.
  replace (2 * cols B1 / cols B1)%nat with 2%nat by (rewrite Nat.div_mul; lia).
  replace ((2 * cols B1) mod cols B1)%nat with 0%nat by (rewrite Nat.Div0.mod_mul; reflexivity).
  cbn [repeat app]. rewrite Nat.sub_0_r, take_sections_pairs, bind_ret. reflexivity.
Qed.

Lemma path3_B1_endpoints :
  forall j, (j < cols path3_B1)%nat -> (j < S j < rows path3_B1)%nat.
Proof. cbn. lia. Qed.

Lemma path3_B1_nonzero :
  forall j i, (j < cols path3_B1)%nat -> (i < rows path3_B1)%nat ->
    (ent path3_B1 i j <> 0 <-> i = j \/ i = S j).
Proof.
  intros j i Hj Hi. cbn [rows cols path3_B1 mk] in Hj, Hi. unfold path3_B1.
  rewrite ent_mk by assumption.
  destruct j as [|[|j]]; [| |lia]; destruct i as [|[|[|i]]]; try lia; cbn;
    split; intros H;
    first [ left; reflexivity | right; reflexivity | exfalso; apply H; reflexivity
          | lra | destruct H as [H|H]; discriminate ].
Qed.

Lemma data_setup_edges_incidence_witness :
  (0 < cols path3_B1)%nat /\
  (forall j, (j < cols path3_B1)%nat -> (j < S j < rows path3_B1)%nat) /\
  (forall j i, (j < cols path3_B1)%nat -> (i < rows path3_B1)%nat ->
     (ent path3_B1 i j <> 0 <-> i = j \/ i = S j)) /\
  data_setup_edges path3_B1 =
  ret (map (fun j => [j; S j]) (seq 0 (cols path3_B1)),
       E_lookup_of (map (fun j => [j; S j]) (seq 0 (cols path3_B1)))).
Proof.
  split; [cbn; lia|]. split; [exact path3_B1_endpoints|].
  split; [exact path3_B1_nonzero|].
  apply (data_setup_edges_incidence path3_B1 (fun j => j) S);
    [cbn; lia | exact path3_B1_endpoints | exact path3_B1_nonzero].
Defined.

Lemma tdict_get_set_same k v d : tdict_get k (tdict_set k v d) = Some v.
Proof.
  induction d as [|[k' v'] t IH]; cbn.
  - destruct (list_eq_dec Nat.eq_dec k k); [reflexivity | congruence].
  - destruct (list_eq_dec Nat.eq_dec k k') as [->|Hne]; cbn.
    + destruct (list_eq_dec Nat.eq_dec k' k'); [reflexivity | congruence].
    + destruct (list_eq_dec Nat.eq_dec k k'); [congruence | exact IH].
Qed.

Lemma tdict_get_set_other k k' v d :
  k <> k' -> tdict_get k (tdict_set k' v d) = tdict_get k d.
Proof.
  intros Hne. induction d as [|[k2 v2] t IH]; cbn.
  - destruct (list_eq_dec Nat.eq_dec k k'); [congruence | reflexivity].
  - destruct (list_eq_dec Nat.eq_dec k' k2) as [->|Hne2]; cbn.
    + destruct (list_eq_dec Nat.eq_dec k k2); [congruence | reflexivity].
    + destruct (list_eq_dec Nat.eq_dec k k2); [reflexivity | exact IH].
Qed.

Lemma E_lookup_fold_notin x ks es d :
  ~ In x es ->
  tdict_get x (fold_left (fun d ie => tdict_set (snd ie) (fst ie) d) (combine ks es) d) =
  tdict_get x d.
Proof.
  revert ks d. induction es as [|e es IH]; intros ks d Hx; destruct ks as [|k ks]; try reflexivity.
  cbn [combine fold_left fst snd]. rewrite IH by (intros H; apply Hx; right; exact H).
  apply tdict_get_set_other. intros ->. apply Hx. left. reflexivity.
Qed.

Lemma E_lookup_fold_nodup es :
  NoDup es -> forall k d i, (i < length es)%nat ->
  tdict_get (nth i es [])
    (fold_left (fun d ie => tdict_set (snd ie) (fst ie) d) (combine (seq k (length es)) es) d) =
  Some (k + i)%nat.
Proof.
  induction 1 as [|e es Hn Hd IH]; intros k d i Hi; [cbn in Hi; lia|].
  cbn [length seq combine fold_left fst snd].
  destruct i as [|i].
  - cbn [nth]. rewrite E_lookup_fold_notin by exact Hn.
    rewrite tdict_get_set_same, Nat.add_0_r. reflexivity.
  - cbn [nth]. cbn [length] in Hi. rewrite IH by lia. f_equal. lia.
Qed.

(** X17. [E_lookup] inverts [E]: when the edge tuples are pairwise distinct,
    [E_lookup[E[i]] = i] for every edge index [i]. *)
Theorem E_lookup_inverts_E edges i (Hd : NoDup edges) (Hi : (i < length edges)%nat) :
  tdict_get (nth i edges []) (E_lookup_of edges) = Some i.
Proof. unfold E_lookup_of. exact (E_lookup_fold_nodup edges Hd 0 [] i Hi). Qed.

Lemma E_lookup_inverts_E_witness :
  NoDup [[0; 1]; [1; 2]]%nat /\ (1 < length [[0; 1]; [1; 2]]%nat)%nat /\
  tdict_get (nth 1 [[0; 1]; [1; 2]]%nat []) (E_lookup_of [[0; 1]; [1; 2]]%nat) = Some 1%nat.
Proof.
  assert (Hd : NoDup [[0; 1]; [1; 2]]%nat).
  { constructor; [intros [H|[]]; discriminate|]. constructor; [intros []|constructor]. }
  split; [exact Hd|]. split; [cbn; lia|].
  apply E_lookup_inverts_E; [exact Hd | cbn; lia].
Defined.

(** ** The mixed forward/backward dataset *)






(** ** Reversed examples *)

Lemma py_index_neg {A} (l : list A) k d :
  (1 <= k <= length l)%nat ->
  py_index l (- Z.of_nat k) = ret (nth (length l - k) l d).
Proof.
  intros Hk. rewrite <- (py_index_nat l (length l - k) d) by lia.
  assert (E : py_norm (length l) (- Z.of_nat k) = Z.of_nat (length l - k)).
  { unfold py_norm. replace (- Z.of_nat k <? 0)%Z with true by (symmetry; apply Z.ltb_lt; lia).
    lia. }
  unfold py_index. cbv zeta. rewrite E, py_norm_nonneg by lia. reflexivity.
Qed.

(** X19. The reversed version of a path [p0 :: p1 :: rest ++ [t1; t2]] (a
    prefix followed by its 1-hop and 2-hop targets) is the example with
    prefix [t2 :: t1 :: rev rest] and targets [p1] then [p0]: the
    reversed task predicts the first two prefix nodes, last one first. *)
Theorem reversed_example_targets p0 p1 rest t1 t2 :
  reversed_example ((p0 :: p1 :: rest) ++ [t1; t2]) = ret (t2 :: t1 :: rev rest, p1, p0).
Proof.
  unfold reversed_example. cbv zeta.
  assert (Hr : rev ((p0 :: p1 :: rest) ++ [t1; t2]) = (t2 :: t1 :: rev rest) ++ [p1; p0]).
  { rewrite rev_app_distr. cbn. rewrite <- app_assoc. reflexivity. }
  rewrite Hr.
  assert (Hl : length ((t2 :: t1 :: rev rest) ++ [p1; p0]) = (length rest + 4)%nat)
    by (rewrite length_app; cbn; rewrite length_rev; lia).
  change (-2)%Z with (- Z.of_nat 2)%Z. change (-1)%Z with (- Z.of_nat 1)%Z.
  rewrite (py_index_neg _ 2 0%nat) by lia. rewrite bind_ret.
  rewrite (py_index_neg _ 1 0%nat) by lia. rewrite bind_ret. rewrite Hl.
  assert (Hn : length (t2 :: t1 :: rev rest) = (length rest + 2)%nat)
    by (cbn; rewrite length_rev; lia).
  replace (length rest + 4 - 2)%nat with (length (t2 :: t1 :: rev rest) + 0)%nat by lia.
  replace (length rest + 4 - 1)%nat with (length (t2 :: t1 :: rev rest) + 1)%nat by lia.
  rewrite !nth_app_len, Nat.add_0_r, firstn_app, Nat.sub_diag, firstn_all.
  cbn [firstn]. rewrite app_nil_r. reflexivity.
Qed.
